(** * The Glimmer renderer of Ember: root scheduling and definition lookup

    A shallow embedding of [renderer.ts] (the [RootState] and [Renderer]
    classes, the registry of renderers, [renderSettled], [loopEnd]) and of
    [resolver.ts] ([lookupComponentPair], [ResolverImpl], the lookup of
    partials), and of [getOwner] and [setOwner] of [owner.ts], with the
    properties of the specification and further properties of the code
    stated over them.

    JavaScript objects have an identity and are mutated in place.  Every
    object of the source lives in a store and is named by a number: the
    renderers ([objs]), the [RootState]s of one renderer ([store]) and the
    arrays that [this._roots] has pointed to ([arrays]).  The code a root
    renders (templates, component hooks) is user code; it is given as a
    script of calls into the public interface of the renderer. *)

From Stdlib Require Import ZArith List Bool Lia Ascii String.
From stdpp Require Import base list gmap strings.
Import ListNotations.

Set Warnings "-register-all".
Local Open Scope Z_scope.
Local Open Scope nat_scope.

(** ** User code *)

(** What a render function (a template with its components) can do to the
    renderer that runs it. [Append v first again] is [view.appendTo(..)] for
    a view [v] whose first render runs [first] and whose later renders run
    [again]; [Remove v] is [renderer.remove(v)]; [Dirty] writes tracked
    state, which advances [CURRENT_TAG]; [DestroyRenderer] is
    [renderer.destroy()]; [Throw] is an exception raised by the render. *)
Inductive action : Type :=
| Append (view : nat) (first again : list action)
| Remove (view : nat)
| Dirty
| DestroyRenderer
| Throw.

(** ** Data *)

(** The function held by [RootState.render]. [InitialRender] is the closure
    installed by the constructor, [Rerender] the one that calls
    [result.rerender], [Warn] a wrapper of [errorLoopTransaction] whose [fn]
    has been replaced by the [console.warn] closure, and [NoRender] is
    [undefined], which [destroy] stores. *)
Inductive render_fn : Type :=
| InitialRender (first again : list action)
| Rerender (again : list action)
| Warn
| NoRender.

(** [class RootState]. [runtime] is not a field of the model: it is defined
    exactly while [destroyed] is false, both change only in [destroy]. *)
Record RootState : Type := mkRoot {
  root : option nat;
  result : bool;
  destroyed : bool;
  render : render_fn
}.

(** [class Renderer], the fields that the scheduling code reads or writes.
    [_roots] is a reference to an array of [arrays]; an array holds
    references into [store]. *)
Record Renderer : Type := mkRenderer {
  store : nat -> RootState;
  nextRoot : nat;
  arrays : nat -> list nat;
  _roots : nat;
  _removedRoots : list nat;
  _inRenderTransaction : bool;
  _lastRevision : Z;
  _destroyed : bool
}.

Inductive event : Type :=
| EvRender (renderer rootid : nat)
| EvWarn (renderer rootid : nat)
| EvDestroyResult (renderer rootid : nat)
| EvScheduleRevalidate (renderer : nat)
| EvScheduleK
| EvJoinK
| EvJoinResolve (deferred : nat).

(** The module state of [renderer.ts] and the collaborators it talks to:
    the registry [renderers], the counter [loops], [renderSettledDeferred],
    the revision of [CURRENT_TAG] ([clock]), whether backburner has a current
    run loop, and a log of what was asked from the outside. [DEBUG] and
    [_RERENDER_LOOP_LIMIT] are constants of the build and of [ENV]. *)
Record World : Type := mkWorld {
  DEBUG : bool;
  _RERENDER_LOOP_LIMIT : nat;
  objs : nat -> Renderer;
  renderers : list nat;
  loops : nat;
  renderSettledDeferred : option nat;
  nextDeferred : nat;
  currentRunLoop : bool;
  clock : Z;
  log : list event
}.

Inductive error : Type :=
| AssertionFailed (msg : string)
| Thrown
| TypeError
| InfiniteInvalidation.

(** The outcome of a call: it returns, it throws, or the model ran out of
    fuel before the call ended. *)
Inductive Res : Type :=
| Ok (w : World)
| Err (e : error) (w : World)
| OutOfFuel.

Definition bind (r : Res) (k : World -> Res) : Res :=
  match r with
  | Ok w => k w
  | Err e w => Err e w
  | OutOfFuel => OutOfFuel
  end.

Arguments bind !r k /.

Notation "r >>= k" := (bind r k) (at level 50, left associativity).

Definition upd {A : Type} (f : nat -> A) (i : nat) (x : A) : nat -> A :=
  fun j => if Nat.eqb j i then x else f j.

(** *** Field updates *)

Definition set_objs (w : World) (o : nat -> Renderer) : World :=
  mkWorld (DEBUG w) (_RERENDER_LOOP_LIMIT w) o (renderers w) (loops w)
    (renderSettledDeferred w) (nextDeferred w) (currentRunLoop w) (clock w) (log w).

Definition set_renderers (w : World) (l : list nat) : World :=
  mkWorld (DEBUG w) (_RERENDER_LOOP_LIMIT w) (objs w) l (loops w)
    (renderSettledDeferred w) (nextDeferred w) (currentRunLoop w) (clock w) (log w).

Definition set_loops (w : World) (n : nat) : World :=
  mkWorld (DEBUG w) (_RERENDER_LOOP_LIMIT w) (objs w) (renderers w) n
    (renderSettledDeferred w) (nextDeferred w) (currentRunLoop w) (clock w) (log w).

Definition set_deferred (w : World) (d : option nat) (n : nat) : World :=
  mkWorld (DEBUG w) (_RERENDER_LOOP_LIMIT w) (objs w) (renderers w) (loops w)
    d n (currentRunLoop w) (clock w) (log w).

Definition set_clock (w : World) (c : Z) : World :=
  mkWorld (DEBUG w) (_RERENDER_LOOP_LIMIT w) (objs w) (renderers w) (loops w)
    (renderSettledDeferred w) (nextDeferred w) (currentRunLoop w) c (log w).

Definition emit (e : event) (w : World) : World :=
  mkWorld (DEBUG w) (_RERENDER_LOOP_LIMIT w) (objs w) (renderers w) (loops w)
    (renderSettledDeferred w) (nextDeferred w) (currentRunLoop w) (clock w)
    (log w ++ [e]).

(** [this] is renderer [r]. *)
Definition this (r : nat) (w : World) : Renderer := objs w r.

Definition set_this (r : nat) (x : Renderer) (w : World) : World :=
  set_objs w (upd (objs w) r x).

Definition set_store (x : Renderer) (s : nat -> RootState) (n : nat) : Renderer :=
  mkRenderer s n (arrays x) (_roots x) (_removedRoots x)
    (_inRenderTransaction x) (_lastRevision x) (_destroyed x).

Definition set_arrays (x : Renderer) (a : nat -> list nat) : Renderer :=
  mkRenderer (store x) (nextRoot x) a (_roots x) (_removedRoots x)
    (_inRenderTransaction x) (_lastRevision x) (_destroyed x).

Definition set_roots (x : Renderer) (p : nat) : Renderer :=
  mkRenderer (store x) (nextRoot x) (arrays x) p (_removedRoots x)
    (_inRenderTransaction x) (_lastRevision x) (_destroyed x).

Definition set_removedRoots (x : Renderer) (l : list nat) : Renderer :=
  mkRenderer (store x) (nextRoot x) (arrays x) (_roots x) l
    (_inRenderTransaction x) (_lastRevision x) (_destroyed x).

Definition set_inRenderTransaction (x : Renderer) (b : bool) : Renderer :=
  mkRenderer (store x) (nextRoot x) (arrays x) (_roots x) (_removedRoots x)
    b (_lastRevision x) (_destroyed x).

Definition set_lastRevision (x : Renderer) (z : Z) : Renderer :=
  mkRenderer (store x) (nextRoot x) (arrays x) (_roots x) (_removedRoots x)
    (_inRenderTransaction x) z (_destroyed x).

Definition set_destroyed (x : Renderer) (b : bool) : Renderer :=
  mkRenderer (store x) (nextRoot x) (arrays x) (_roots x) (_removedRoots x)
    (_inRenderTransaction x) (_lastRevision x) b.

(** The array [a] of renderer [r], and the root object [i] of renderer [r]. *)
Definition array (r a : nat) (w : World) : list nat := arrays (this r w) a.

Definition set_array (r a : nat) (l : list nat) (w : World) : World :=
  set_this r (set_arrays (this r w) (upd (arrays (this r w)) a l)) w.

Definition rootState (r i : nat) (w : World) : RootState := store (this r w) i.

Definition set_rootState (r i : nat) (s : RootState) (w : World) : World :=
  set_this r (set_store (this r w) (upd (store (this r w)) i s) (nextRoot (this r w))) w.

(** A renderer as its constructor leaves it. *)
Definition newRoot : RootState := mkRoot None false false NoRender.

Definition newRenderer : Renderer :=
  mkRenderer (fun _ => newRoot) 0 (fun _ => []) 0 [] false (-1)%Z false.

Definition newWorld (debug : bool) (limit : nat) (now : Z) : World :=
  mkWorld debug limit (fun _ => newRenderer) [] 0 None 0 false now [].

(** ** Collaborators *)

(** Modelled from the spec: the revision clock ([CURRENT_TAG] with
    [valueForTag] and [validateTag] of [@glimmer/validator]) is not in the
    sources. The spec gives [current()] and [is_valid_since(r)], true iff no
    tracked state has changed since revision [r] was captured; revisions
    only grow. *)
Definition valueForTag (w : World) : Z := clock w.

Definition validateTag (w : World) (snapshot : Z) : bool := (clock w <=? snapshot)%Z.

(** Modelled from the spec: [assert] of [@ember/debug] is not in the
    sources. The spec makes a failed assertion a fatal error, raised
    synchronously where the condition is checked. *)
Definition assert (msg : string) (cond : bool) (w : World) : Res :=
  if cond then Ok w else Err (AssertionFailed msg) w.

Arguments assert msg !cond w /.

(** [Array.prototype.indexOf]: the first index of [x], or -1. *)
Fixpoint indexOf (x : nat) (l : list nat) : Z :=
  match l with
  | [] => (-1)%Z
  | y :: l' =>
      if Nat.eqb y x then 0%Z
      else let k := indexOf x l' in if (k <? 0)%Z then (-1)%Z else (k + 1)%Z
  end.

(** [Array.prototype.splice(start, 1)]: a negative [start] counts from the
    end of the array, and nothing is removed past the end. *)
Definition splice1 (start : Z) (l : list nat) : list nat :=
  let len := Z.of_nat (length l) in
  let actualStart :=
    if (start <? 0)%Z then Z.max (len + start) 0 else Z.min start len in
  delete (Z.to_nat actualStart) l.

(** ** The registry of renderers *)

Definition register (r : nat) (w : World) : Res :=
  assert "Cannot register the same renderer twice"
    (indexOf r (renderers w) =? -1)%Z w >>= fun w =>
  Ok (set_renderers w (renderers w ++ [r])).

Definition deregister (r : nat) (w : World) : Res :=
  let index := indexOf r (renderers w) in
  assert "Cannot deregister unknown unregistered renderer"
    (negb (index =? -1)%Z) w >>= fun w =>
  Ok (set_renderers w (splice1 index (renderers w))).

(** ** [RootState] *)

Definition isFor (s : RootState) (possibleRoot : nat) : bool :=
  match root s with
  | Some v => Nat.eqb v possibleRoot
  | None => false
  end.

(** [RootState.destroy]. Destructuring [this.runtime] throws once the root
    has been destroyed. The teardown of the render result is recorded in the
    log. *)
Definition RootState_destroy (r i : nat) (w : World) : Res :=
  let s := rootState r i w in
  if destroyed s then Err TypeError w
  else
    let w1 := set_rootState r i (mkRoot None false true NoRender) w in
    Ok (if result s then emit (EvDestroyResult r i) w1 else w1).

(** ** [Renderer]: removing roots *)

(** The loop [while (i--)] of [cleanupRootFor] over the array [a]. *)
Fixpoint cleanupLoop (i : nat) (r a view : nat) (w : World) : Res :=
  match i with
  | 0 => Ok w
  | S i' =>
      match array r a w !! i' with
      | None => Err TypeError w
      | Some id =>
          if isFor (rootState r id w) view then
            RootState_destroy r id w >>= fun w1 =>
            cleanupLoop i' r a view
              (set_array r a (splice1 (Z.of_nat i') (array r a w1)) w1)
          else cleanupLoop i' r a view w
      end
  end.

Definition cleanupRootFor (r view : nat) (w : World) : Res :=
  if _destroyed (this r w) then Ok w
  else
    let roots := _roots (this r w) in
    cleanupLoop (length (array r roots w)) r roots view w.

Fixpoint destroyEach (l : list nat) (r : nat) (w : World) : Res :=
  match l with
  | [] => Ok w
  | i :: l' => RootState_destroy r i w >>= destroyEach l' r
  end.

(** [_clearAllRoots]: [this._roots = []] makes [_roots] point to a new
    array; the old one stays as it is for whoever still holds it. *)
Definition _clearAllRoots (r : nat) (w : World) : Res :=
  let roots := _roots (this r w) in
  destroyEach (array r roots w) r w >>= fun w1 =>
  let x := this r w1 in
  let fresh := S (_roots x) in
  let w2 :=
    set_this r
      (set_roots (set_arrays (set_removedRoots x []) (upd (arrays x) fresh [])) fresh)
      w1 in
  if negb (length (array r roots w2) =? 0) then deregister r w2 else Ok w2.

Definition destroy (r : nat) (w : World) : Res :=
  if _destroyed (this r w) then Ok w
  else _clearAllRoots r (set_this r (set_destroyed (this r w) true) w).

Definition _isValid (r : nat) (w : World) : bool :=
  _destroyed (this r w)
  || (length (array r (_roots (this r w)) w) =? 0)
  || validateTag w (_lastRevision (this r w)).

(** ** [Renderer]: rendering roots *)

Section Calls.

(** [_renderRoot] calls [_renderRootsTransaction], which renders roots,
    whose render functions call [_renderRoot]: the recursive call is a
    variable here and the knot is tied below. *)
Variable _renderRootsTransaction_rec : nat -> World -> Res.

Definition _renderRoot (r id : nat) (w : World) : Res :=
  let roots := _roots (this r w) in
  let w1 := set_array r roots (array r roots w ++ [id]) w in
  (if length (array r roots w1) =? 1 then register r w1 else Ok w1) >>=
  _renderRootsTransaction_rec r.

(** [appendTo] and [_appendDefinition]: a new [RootState] is made for the
    view and handed to [_renderRoot]. *)
Definition _appendDefinition (r view : nat) (first again : list action)
    (w : World) : Res :=
  let x := this r w in
  let id := nextRoot x in
  let s := mkRoot (Some view) false false (InitialRender first again) in
  _renderRoot r id (set_this r (set_store x (upd (store x) id s) (S id)) w).

Definition perform (r : nat) (a : action) (w : World) : Res :=
  match a with
  | Append view first again => _appendDefinition r view first again w
  | Remove view => cleanupRootFor r view w
  | Dirty => Ok (set_clock w (clock w + 1)%Z)
  | DestroyRenderer => destroy r w
  | Throw => Err Thrown w
  end.

Fixpoint exec (r : nat) (acts : list action) (w : World) : Res :=
  match acts with
  | [] => Ok w
  | a :: rest => perform r a w >>= exec r rest
  end.

(** A call of the function that [errorLoopTransaction(fn)] returns, for
    the [fn] of root [id] with body [body]. With [DEBUG] a throwing [fn]
    is replaced by the closure that warns; the exception is not caught.
    Without [DEBUG] the function is [fn] itself. *)
Definition errorLoopTransaction (r id : nat) (body : World -> Res)
    (w : World) : Res :=
  match body w with
  | Err e w1 =>
      if DEBUG w1 then
        let s := rootState r id w1 in
        match render s with
        | NoRender => Err e w1
        | _ => Err e (set_rootState r id (mkRoot (root s) (result s) (destroyed s) Warn) w1)
        end
      else Err e w1
  | other => other
  end.

(** [root.render()]. *)
Definition RootState_render (r id : nat) (w : World) : Res :=
  match render (rootState r id w) with
  | InitialRender first again =>
      errorLoopTransaction r id
        (fun w =>
           exec r first (emit (EvRender r id) w) >>= fun w1 =>
           let s := rootState r id w1 in
           Ok (set_rootState r id (mkRoot (root s) true (destroyed s) (Rerender again)) w1))
        w
  | Rerender again =>
      errorLoopTransaction r id (fun w => exec r again (emit (EvRender r id) w)) w
  | Warn => Ok (emit (EvWarn r id) w)
  | NoRender => Err TypeError w
  end.

(** The [for] loop of [_renderRoots] over the array [roots], from index
    [i]. The array can grow while the loop runs. *)
Fixpoint forRoots (fuel : nat) (r roots initialRootsLength i : nat)
    (w : World) : Res :=
  match fuel with
  | 0 => OutOfFuel
  | S fuel' =>
      match array r roots w !! i with
      | None => Ok w
      | Some id =>
          if destroyed (rootState r id w) then
            let x := this r w in
            forRoots fuel' r roots initialRootsLength (S i)
              (set_this r (set_removedRoots x (_removedRoots x ++ [id])) w)
          else if initialRootsLength <=? i then
            forRoots fuel' r roots initialRootsLength (S i) w
          else
            RootState_render r id w >>=
            forRoots fuel' r roots initialRootsLength (S i)
      end
  end.

(** The [do ... while (roots.length > initialRootsLength)] loop. *)
Fixpoint doWhile (fuel : nat) (r roots : nat) (w : World) : Res :=
  match fuel with
  | 0 => OutOfFuel
  | S fuel' =>
      let initialRootsLength := length (array r roots w) in
      forRoots fuel' r roots initialRootsLength 0 w >>= fun w1 =>
      let w2 := set_this r (set_lastRevision (this r w1) (valueForTag w1)) w1 in
      if initialRootsLength <? length (array r roots w2)
      then doWhile fuel' r roots w2
      else Ok w2
  end.

(** [while (removedRoots.length)]: [pop] takes the entries from the end. *)
Definition removeDestroyed (removedRoots roots : list nat) : list nat :=
  fold_left (fun l x => splice1 (indexOf x l) l) (rev removedRoots) roots.

Definition _renderRoots (fuel : nat) (r : nat) (w : World) : Res :=
  let roots := _roots (this r w) in
  doWhile fuel r roots w >>= fun w1 =>
  let kept := removeDestroyed (_removedRoots (this r w1)) (array r roots w1) in
  let w2 := set_array r roots kept (set_this r (set_removedRoots (this r w1) []) w1) in
  if length (array r (_roots (this r w2)) w2) =? 0 then deregister r w2 else Ok w2.

Definition _renderRootsTransaction_body (fuel : nat) (r : nat) (w : World) : Res :=
  if _inRenderTransaction (this r w) then Ok w
  else
    let w1 := set_this r (set_inRenderTransaction (this r w) true) w in
    match _renderRoots fuel r w1 with
    | Ok w2 => Ok (set_this r (set_inRenderTransaction (this r w2) false) w2)
    | Err e w2 =>
        let x := set_lastRevision (this r w2) (valueForTag w2) in
        Err e (set_this r (set_inRenderTransaction x false) w2)
    | OutOfFuel => OutOfFuel
    end.

End Calls.

Fixpoint _renderRootsTransaction (fuel : nat) (r : nat) (w : World) : Res :=
  match fuel with
  | 0 => OutOfFuel
  | S fuel' =>
      _renderRootsTransaction_body (_renderRootsTransaction fuel') fuel' r w
  end.

(** The public interface, with the fuel of the transaction it may start. *)
Definition appendTo (fuel : nat) (r view : nat) (first again : list action)
    (w : World) : Res :=
  _appendDefinition (_renderRootsTransaction fuel) r view first again w.

Definition remove (r view : nat) (w : World) : Res := cleanupRootFor r view w.

Definition _revalidate (fuel : nat) (r : nat) (w : World) : Res :=
  if _isValid r w then Ok w else _renderRootsTransaction fuel r w.

Definition _scheduleRevalidate (r : nat) (w : World) : World :=
  emit (EvScheduleRevalidate r) w.

(** ** The run loop hooks and [renderSettled] *)

Definition loopBegin (w : World) : World :=
  fold_left (fun w r => _scheduleRevalidate r w) (renderers w) w.

Definition renderSettled (w : World) : nat * World :=
  match renderSettledDeferred w with
  | Some d => (d, w)
  | None =>
      let d := nextDeferred w in
      let w1 := set_deferred w (Some d) (S d) in
      (d, if currentRunLoop w1 then w1 else emit EvScheduleK w1)
  end.

Definition resolveRenderPromise (w : World) : World :=
  match renderSettledDeferred w with
  | Some d => emit (EvJoinResolve d) (set_deferred w None (nextDeferred w))
  | None => w
  end.

(** The [for] loop of [loopEnd] over the renderers still to visit. Nothing
    changes the registry before the loop is left. *)
Fixpoint loopEnd_from (rs : list nat) (w : World) : Res :=
  match rs with
  | [] => Ok (resolveRenderPromise (set_loops w 0))
  | r :: rest =>
      if negb (_isValid r w) then
        if _RERENDER_LOOP_LIMIT w <? loops w then
          destroy r (set_loops w 0) >>= fun w1 => Err InfiniteInvalidation w1
        else Ok (emit EvJoinK (set_loops w (S (loops w))))
      else loopEnd_from rest w
  end.

Definition loopEnd (w : World) : Res := loopEnd_from (renderers w) w.

(** ** Reading the state *)

(** The contents of [this._roots]. *)
Definition roots_of (r : nat) (w : World) : list nat :=
  array r (_roots (this r w)) w.

(** How often the render function of root [id] of renderer [r] has rendered
    (first render or rerender) according to the log. *)
Definition is_render (r id : nat) (e : event) : bool :=
  match e with
  | EvRender r' id' => Nat.eqb r' r && Nat.eqb id' id
  | _ => false
  end.

Definition renders (r id : nat) (l : list event) : nat :=
  length (List.filter (is_render r id) l).

Definition is_resolve (e : event) : bool :=
  match e with
  | EvJoinResolve _ => true
  | _ => false
  end.


(** ** The resolver *)

Module Resolver.

(** Objects are named by numbers: a compiled template, a class, a
    factory. A template factory is called with an owner and gives the
    template object for it; as a function it gives the same object for the
    same owner each time. *)
Definition Template : Type := nat.
Definition Class : Type := nat.
Definition TemplateFactory : Type := nat -> Template.

(** [interface Factory]: [class] is optional. *)
Record Factory : Type := mkFactory {
  fid : nat;
  class : option Class
}.

(** [interface Owner], the three methods the resolver calls. *)
Record Owner : Type := mkOwner {
  owner_id : nat;
  lookup : string -> option TemplateFactory;
  factoryFor : string -> option Factory;
  hasRegistration : string -> bool
}.

Inductive manager : Type :=
| CURLY_COMPONENT_MANAGER
| TEMPLATE_ONLY_COMPONENT_MANAGER
| CustomManager (m : nat).

Definition manager_eqb (a b : manager) : bool :=
  match a, b with
  | CURLY_COMPONENT_MANAGER, CURLY_COMPONENT_MANAGER => true
  | TEMPLATE_ONLY_COMPONENT_MANAGER, TEMPLATE_ONLY_COMPONENT_MANAGER => true
  | CustomManager m, CustomManager n => Nat.eqb m n
  | _, _ => false
  end.

(** What the resolver takes from [@glimmer/manager], [./helper] and [ENV];
    none of it is in the sources. [defaultComponent] is the private name
    that [P`component:-default`] stands for. *)
Record Host : Type := mkHost {
  getComponentTemplate : Class -> option TemplateFactory;
  getInternalComponentManager : Class -> manager;
  isFunction : Class -> bool;
  isClassicHelper : Class -> bool;
  _TEMPLATE_ONLY_GLIMMER_COMPONENTS : bool;
  defaultComponent : string
}.

Inductive definition_state : Type :=
| StateFactory (f : Factory)
| StateClass (c : Class)
| StateTemplateOnly (name : string)
| StateUndefined.

(** A [ResolvedComponentDefinition]; [def_id] is the identity of the object
    that the lookup creates. *)
Record ResolvedComponentDefinition : Type := mkDefinition {
  def_id : nat;
  state : definition_state;
  def_manager : manager;
  template : option Template
}.

Inductive instrumentation : Type :=
| InstrumentStart (name : string) (object : string)
| InstrumentFinish (name : string) (object : string).

(** The keys of [componentDefinitionCache] are objects: a factory or a
    template. *)
Definition key : Type := (nat + nat)%type.

(** A [ResolverImpl] with the module state it shares: the cache, the
    set [CLASSIC_HELPER_MANAGER_ASSOCIATED], and what has been reported
    to the instrumentation. *)
Record ResolverImpl : Type := mkResolver {
  componentDefinitionCache : gmap key ResolvedComponentDefinition;
  nextDefinition : nat;
  CLASSIC_HELPER_MANAGER_ASSOCIATED : gset nat;
  reported : list instrumentation
}.

Definition newResolver : ResolverImpl := mkResolver ∅ 0 ∅ [].

Inductive outcome (A : Type) : Type :=
| Returned (a : A) (s : ResolverImpl)
| Raised (msg : string) (s : ResolverImpl).
Arguments Returned {A} a s.
Arguments Raised {A} msg s.

Definition instrumentationPayload (name : string) : string :=
  String.append "component:" name.

Definition componentFor (name : string) (owner : Owner) : option Factory :=
  factoryFor owner (String.append "component:" name).

Definition layoutFor (name : string) (owner : Owner) : option TemplateFactory :=
  lookup owner (String.append "template:components/" name).

(** [type LookupResult]: a component with its layout, a component alone,
    or a layout alone. *)
Inductive LookupResult : Type :=
| ComponentAndLayout (component : Factory) (layout : TemplateFactory)
| ComponentOnly (component : Factory)
| LayoutOnly (layout : TemplateFactory).

Definition pair_component (p : LookupResult) : option Factory :=
  match p with
  | ComponentAndLayout c _ | ComponentOnly c => Some c
  | LayoutOnly _ => None
  end.

Definition pair_layout (p : LookupResult) : option TemplateFactory :=
  match p with
  | ComponentAndLayout _ l | LayoutOnly l => Some l
  | ComponentOnly _ => None
  end.

Definition lookupComponentPair (host : Host) (owner : Owner) (name : string)
    : option LookupResult :=
  let component := componentFor name owner in
  let attached :=
    match component with
    | Some c =>
        match class c with
        | Some cls => getComponentTemplate host cls
        | None => None
        end
    | None => None
    end in
  match component, attached with
  | Some c, Some layout => Some (ComponentAndLayout c layout)
  | _, _ =>
      match component, layoutFor name owner with
      | None, None => None
      | Some c, None => Some (ComponentOnly c)
      | None, Some l => Some (LayoutOnly l)
      | Some c, Some l => Some (ComponentAndLayout c l)
      end
  end.

Inductive builtin : Type :=
| inlineIf | action_helper | array_helper | concat | fn | get | hash
| log_helper | mut | queryParams | readonly | unbound | inlineUnless
| eachIn | normalizeClassHelper | trackArray | getDynamicVarHelper
| mountHelper | outletHelper | componentAssertionHelper
| inElementNullCheckHelper.

(** [BUILTINS_HELPERS]: the own properties of the object literal. *)
Definition BUILTINS_HELPERS : gmap string builtin :=
  list_to_map
    [ ("if", inlineIf); ("action", action_helper); ("array", array_helper);
      ("concat", concat); ("fn", fn); ("get", get); ("hash", hash);
      ("log", log_helper); ("mut", mut); ("query-params", queryParams);
      ("readonly", readonly); ("unbound", unbound); ("unless", inlineUnless);
      ("-hash", hash); ("-each-in", eachIn);
      ("-normalize-class", normalizeClassHelper);
      ("-track-array", trackArray);
      ("-get-dynamic-var", getDynamicVarHelper); ("-mount", mountHelper);
      ("-outlet", outletHelper);
      ("-assert-implicit-component-helper-argument", componentAssertionHelper);
      ("-in-el-null", inElementNullCheckHelper) ]%string.

(** An object literal inherits from [Object.prototype]: reading a property
    of it by name also finds the members of [Object.prototype] of the
    language standard, all of them functions or objects. *)
Definition Object_prototype : list string :=
  [ "constructor"; "hasOwnProperty"; "isPrototypeOf"; "propertyIsEnumerable";
    "toLocaleString"; "toString"; "valueOf"; "__proto__"; "__defineGetter__";
    "__defineSetter__"; "__lookupGetter__"; "__lookupSetter__" ]%string.

Inductive HelperDefinitionState : Type :=
| BuiltIn (h : builtin)
| InheritedMember (name : string)
| HelperFactory (f : Factory)
| HelperClass (c : Class).

(** [this.builtInHelpers[name]]: an own property of [BUILTINS_HELPERS], or
    else a member of [Object.prototype]; [None] is [undefined]. *)
Definition builtInHelpers (name : string) : option HelperDefinitionState :=
  match BUILTINS_HELPERS !! name with
  | Some helper => Some (BuiltIn helper)
  | None =>
      if bool_decide (name ∈ Object_prototype) then Some (InheritedMember name)
      else None
  end.

(** A name between double quotes, for the messages that quote a name. *)
Definition quoted (name : string) : string :=
  let q := String (Ascii.ascii_of_nat 34) EmptyString in
  String.append q (String.append name q).

Definition overwrite_message (name : string) : string :=
  String.append "You attempted to overwrite the built-in helper "
    (String.append (quoted name) " which is not allowed. Please rename the helper.").

(** [_lookupHelper]. The assertion is the one modelled for the renderer: a
    failed assertion raises. Every value that [this.builtInHelpers[name]]
    finds is truthy. *)
Definition _lookupHelper (host : Host) (name : string) (owner : Owner)
    (s : ResolverImpl) : outcome (option HelperDefinitionState) :=
  if bool_decide (is_Some (builtInHelpers name))
     && hasRegistration owner (String.append "helper:" name)
  then Raised (overwrite_message name) s
  else
    match builtInHelpers name with
    | Some helper => Returned (Some helper) s
    | None =>
        match factoryFor owner (String.append "helper:" name) with
        | None => Returned None s
        | Some factory =>
            match class factory with
            | None => Returned None s
            | Some definition =>
                if isFunction host definition && isClassicHelper host definition
                then
                  let associated := CLASSIC_HELPER_MANAGER_ASSOCIATED s in
                  let s' :=
                    if bool_decide (fid factory ∈ associated) then s
                    else mkResolver (componentDefinitionCache s) (nextDefinition s)
                           ({[fid factory]} ∪ associated) (reported s) in
                  Returned (Some (HelperFactory factory)) s'
                else Returned (Some (HelperClass definition)) s
            end
        end
    end.

Definition lookupHelper := _lookupHelper.

Definition report (e : instrumentation) (s : ResolverImpl) : ResolverImpl :=
  mkResolver (componentDefinitionCache s) (nextDefinition s)
    (CLASSIC_HELPER_MANAGER_ASSOCIATED s) (reported s ++ [e]).

(** [this.componentDefinitionCache.set(key, definition)] for a definition
    object made by this lookup. *)
Definition cache_set (k : key) (d : ResolvedComponentDefinition)
    (s : ResolverImpl) : ResolverImpl :=
  mkResolver (<[k := d]> (componentDefinitionCache s)) (S (nextDefinition s))
    (CLASSIC_HELPER_MANAGER_ASSOCIATED s) (reported s).

(** The key of the cache: the component factory if there is one, else the
    template that the layout gives for the owner. *)
Definition cache_key (owner : Owner) (p : LookupResult) : key :=
  match p with
  | LayoutOnly layout => inr (layout (owner_id owner))
  | ComponentAndLayout c _ | ComponentOnly c => inl (fid c)
  end.

Definition _lookupComponentDefinition (host : Host) (name : string)
    (owner : Owner) (s : ResolverImpl)
    : outcome (option ResolvedComponentDefinition) :=
  match lookupComponentPair host owner name with
  | None => Returned None s
  | Some found =>
      let k := cache_key owner found in
      match componentDefinitionCache s !! k with
      | Some cachedComponentDefinition => Returned (Some cachedComponentDefinition) s
      | None =>
          let payload := instrumentationPayload name in
          let s1 := report (InstrumentStart "render.getComponentDefinition" payload) s in
          let tpl := option_map (fun l => l (owner_id owner)) (pair_layout found) in
          let built :=
            match pair_component found with
            | None =>
                if _TEMPLATE_ONLY_GLIMMER_COMPONENTS host
                then Some (mkDefinition (nextDefinition s) (StateTemplateOnly name)
                             TEMPLATE_ONLY_COMPONENT_MANAGER tpl)
                else Some (mkDefinition (nextDefinition s)
                             match factoryFor owner (defaultComponent host) with
                             | Some f => StateFactory f
                             | None => StateUndefined
                             end
                             CURLY_COMPONENT_MANAGER tpl)
            | Some factory =>
                match class factory with
                | None => None
                | Some ComponentClass =>
                    let m := getInternalComponentManager host ComponentClass in
                    Some (mkDefinition (nextDefinition s)
                            (if manager_eqb m CURLY_COMPONENT_MANAGER
                             then StateFactory factory else StateClass ComponentClass)
                            m tpl)
                end
            end in
          match built with
          | None => Raised (String.append "missing component class " name) s1
          | Some definition =>
              let s2 := report (InstrumentFinish "render.getComponentDefinition" payload) s1 in
              Returned (Some definition) (cache_set k definition s2)
          end
      end
  end.

Definition lookupComponent (host : Host) (name : string) (owner : Owner)
    (s : ResolverImpl) : outcome (option ResolvedComponentDefinition) :=
  match _lookupComponentDefinition host name owner s with
  | Returned None s' =>
      if String.eqb name "text-area"
      then Raised "Could not find component `<TextArea />` (did you mean `<Textarea />`?)" s'
      else Returned None s'
  | other => other
  end.

End Resolver.

(** ** The resolver: modifiers and partials *)

Module Partials.
Import Resolver.

Inductive builtin_modifier : Type :=
| actionModifier
| onModifier.

(** [this.builtInModifiers], set in the constructor of [ResolverImpl]: its
    own properties. *)
Definition builtInModifiers : gmap string builtin_modifier :=
  list_to_map [ ("action", actionModifier); ("on", onModifier) ]%string.

(** [builtInModifiers] is an object literal, and [this.builtInModifiers[name]]
    also finds what the object inherits from [Object.prototype]. *)
Inductive ModifierDefinitionState : Type :=
| BuiltInModifier (m : builtin_modifier)
| InheritedProperty (name : string)
| ModifierClass (c : Class).

Definition _lookupModifier (name : string) (owner : Owner)
    : option ModifierDefinitionState :=
  match builtInModifiers !! name with
  | Some builtin => Some (BuiltInModifier builtin)
  | None =>
      if bool_decide (name ∈ Object_prototype) then Some (InheritedProperty name)
      else
        match factoryFor owner (String.append "modifier:" name) with
        | None => None
        | Some modifier =>
            match class modifier with
            | Some c => Some (ModifierClass c)
            | None => None
            end
        end
  end.

Definition lookupModifier := _lookupModifier.

(** [String.prototype.split] with a separator of one character: the parts
    between the separators, at least one part. *)
Fixpoint split (sep : Ascii.ascii) (s : string) : list string :=
  match s with
  | EmptyString => [EmptyString]
  | String c s' =>
      if Ascii.eqb c sep then EmptyString :: split sep s'
      else
        match split sep s' with
        | part :: parts => String c part :: parts
        | [] => [String c EmptyString]
        end
  end.

(** [Array.prototype.join]. *)
Fixpoint join (sep : string) (parts : list string) : string :=
  match parts with
  | [] => EmptyString
  | [p] => p
  | p :: rest => String.append p (String.append sep (join sep rest))
  end.

(** [s.indexOf(c) === -1] is [negb (contains c s)]. *)
Fixpoint contains (c : Ascii.ascii) (s : string) : bool :=
  match s with
  | EmptyString => false
  | String d s' => Ascii.eqb d c || contains c s'
  end.

(** [parseUnderscoredName]: an underscore is put before the last part of
    the path. A part that is missing from the array would be printed as
    [undefined] by the template literal. *)
Definition parseUnderscoredName (templateName : string) : string :=
  let nameParts := split "/"%char templateName in
  let lastPart :=
    match nameParts !! (length nameParts - 1) with
    | Some p => p
    | None => "undefined"%string
    end in
  join "/" (<[length nameParts - 1 := String "_"%char lastPart]> nameParts).

Inductive failure : Type :=
| Assertion (msg : string)
| EmberError (msg : string)
| NotAFunction.

Inductive attempt (A : Type) : Type :=
| Found (a : A)
| Failed (f : failure).
Arguments Found {A} a.
Arguments Failed {A} f.

Definition periods_message (name : string) : string :=
  String.append "templateNames are not allowed to contain periods: " name.

Definition container_message : string :=
  String.append "Container was not found when looking up a views template. "
    (String.append "This is most likely due to manually instantiating an Ember.View. "
       "See: http://git.io/EKPpnA").

Definition unable_message (templateName : string) : string :=
  String.append "Unable to find partial with name " (quoted templateName).

(** [templateFor], where [PARTIALS] is on; [None] in the result is
    [undefined]. The owner may be missing. *)
Definition templateFor (owner : option Owner) (underscored name : string)
    : attempt (option TemplateFactory) :=
  if String.eqb name "" then Found None
  else if contains "."%char name
  then Failed (Assertion (periods_message name))
  else
    match owner with
    | None => Failed (EmberError container_message)
    | Some o =>
        match lookup o (String.append "template:" underscored) with
        | Some t => Found (Some t)
        | None => Found (lookup o (String.append "template:" name))
        end
    end.

(** The module function [lookupPartial]; the first component of the result
    lists the deprecations that the call reports. A template name that is
    [null] is [None]. *)
Definition lookupPartial (templateName : option string) (owner : option Owner)
    : list string * attempt (option TemplateFactory) :=
  (["ember-views.partial"%string],
   match templateName with
   | None => Found None
   | Some name =>
       match templateFor owner (parseUnderscoredName name) name with
       | Failed f => Failed f
       | Found None => Failed (Assertion (unable_message name))
       | Found (Some template) => Found (Some template)
       end
   end).

Record PartialDefinition : Type := mkPartial {
  partial_name : string;
  partial_template : Template
}.

Definition _lookupPartial (name : string) (owner : Owner)
    : list string * attempt PartialDefinition :=
  let (deprecations, templateFactory) := lookupPartial (Some name) (Some owner) in
  (deprecations,
   match templateFactory with
   | Failed f => Failed f
   | Found None => Failed NotAFunction
   | Found (Some t) => Found (mkPartial name (t (owner_id owner)))
   end).

(** [ResolverImpl.lookupPartial], under the build flag [PARTIALS]. *)
Definition resolver_lookupPartial (PARTIALS : bool) (name : string) (owner : Owner)
    : list string * attempt (option PartialDefinition) :=
  if PARTIALS then
    let (deprecations, found) := _lookupPartial name owner in
    (deprecations,
     match found with
     | Found d => Found (Some d)
     | Failed f => Failed f
     end)
  else ([], Found None).

End Partials.

(** ** The registry of views of a renderer *)

Module Views.

(** A view, with the id that [getViewId] gives for it. *)
Record View : Type := mkView {
  view_object : nat;
  viewId : string
}.

(** [interface ViewRegistry], an object used as a map from view ids to
    views. The object is given to the constructor of the renderer; it is
    taken to have no inherited properties, so that it is read by its own
    keys. *)
Definition ViewRegistry : Type := gmap string View.

Inductive outcome : Type :=
| Registered (registry : gmap string View)
| AssertionFailed (msg : string) (registry : gmap string View).

(** [Renderer.register]. *)
Definition register (view : View) (_viewRegistry : gmap string View) : outcome :=
  let id := viewId view in
  match _viewRegistry !! id with
  | Some _ =>
      AssertionFailed
        (String.append "Attempted to register a view with an id already in use: " id)
        _viewRegistry
  | None => Registered (<[id := view]> _viewRegistry)
  end.

(** [Renderer.unregister]. *)
Definition unregister (view : View) (_viewRegistry : gmap string View)
    : gmap string View :=
  delete (viewId view) _viewRegistry.

End Views.

(** ** Owners of objects *)

Module Owners.

(** [object[LEGACY_OWNER]] for an object whose own properties and
    prototypes are [objects], the object first: the property of the first
    of them that has it as its own. *)
Fixpoint first_own (own : gmap nat nat) (objects : list nat) : option nat :=
  match objects with
  | [] => None
  | o :: rest =>
      match own !! o with
      | Some v => Some v
      | None => first_own own rest
      end
  end.

Section Glimmer.

(** [getOwner] and [setOwner] of [@glimmer/owner] are not in the sources:
    they are parameters here, with the state [G] in which they keep the
    owners of objects. Objects and owners are named by numbers. *)
Variable G : Type.
Variable glimmerGetOwner : G -> nat -> option nat.
Variable glimmerSetOwner : G -> nat -> nat -> G.

(** The state of [glimmer]; the prototypes of every object, the nearest
    first; the objects that have [LEGACY_OWNER] as their own property, with
    its value; and the ids of the deprecations reported. *)
Record Heap : Type := mkHeap {
  glimmer : G;
  prototypes : nat -> list nat;
  LEGACY_OWNER : gmap nat nat;
  deprecations : list string
}.

(** [deprecate(message, test, options)] reports when [test] is false. *)
Definition deprecate (id : string) (test : bool) (h : Heap) : Heap :=
  if test then h
  else mkHeap (glimmer h) (prototypes h) (LEGACY_OWNER h) (deprecations h ++ [id]).

Definition getOwner (object : nat) (h : Heap) : option nat * Heap :=
  match glimmerGetOwner (glimmer h) object with
  | Some owner => (Some owner, h)
  | None =>
      let owner := first_own (LEGACY_OWNER h) (object :: prototypes h object) in
      (owner,
       deprecate "owner.legacy-owner-injection"
         match owner with
         | None => true
         | Some _ => false
         end h)
  end.

(** [object[LEGACY_OWNER] = owner] writes an own property of [object]. *)
Definition setOwner (object owner : nat) (h : Heap) : Heap :=
  mkHeap (glimmerSetOwner (glimmer h) object owner) (prototypes h)
    (<[object := owner]> (LEGACY_OWNER h)) (deprecations h).

End Glimmer.

Arguments glimmer {G} h.
Arguments prototypes {G} h.
Arguments LEGACY_OWNER {G} h.
Arguments deprecations {G} h.
Arguments mkHeap {G} glimmer prototypes LEGACY_OWNER deprecations.
Arguments deprecate {G} id test h.
Arguments getOwner {G} glimmerGetOwner object h.
Arguments setOwner {G} glimmerSetOwner object owner h.

End Owners.

(** ** States used in examples *)

(** A renderer with one root, attached and not yet rendered, whose first
    render runs [first]; the renderer is registered. *)
Definition oneRoot (debug : bool) (first again : list action) : World :=
  let w := newWorld debug 10 5%Z in
  let s := mkRoot (Some 100) false false (InitialRender first again) in
  let x := set_store newRenderer (upd (store newRenderer) 0 s) 1 in
  set_renderers (set_this 0 (set_arrays x (upd (arrays x) 0 [0])) w) [0].

(** The world in which a call ends, whether it returns or throws. *)
Definition world_of (res : Res) (otherwise : World) : World :=
  match res with
  | Ok w => w
  | Err _ w => w
  | OutOfFuel => otherwise
  end.

(** ** Relations between the states before and after a call *)

(** The module state of [renderer.ts], the log apart, is the same. *)
Definition module_unchanged (w w' : World) : Prop :=
  DEBUG w' = DEBUG w
  /\ _RERENDER_LOOP_LIMIT w' = _RERENDER_LOOP_LIMIT w
  /\ renderers w' = renderers w
  /\ loops w' = loops w
  /\ renderSettledDeferred w' = renderSettledDeferred w
  /\ nextDeferred w' = nextDeferred w
  /\ currentRunLoop w' = currentRunLoop w
  /\ clock w' = clock w.

(** The fields of a renderer, its root objects apart, are the same. *)
Definition fields_unchanged (x x' : Renderer) : Prop :=
  nextRoot x' = nextRoot x
  /\ arrays x' = arrays x
  /\ _roots x' = _roots x
  /\ _removedRoots x' = _removedRoots x
  /\ _inRenderTransaction x' = _inRenderTransaction x
  /\ _lastRevision x' = _lastRevision x
  /\ _destroyed x' = _destroyed x.

(** Only root objects of renderer [r] and the log differ. *)
Definition only_roots_changed (r : nat) (w w' : World) : Prop :=
  module_unchanged w w'
  /\ (forall q, q <> r -> this q w' = this q w)
  /\ fields_unchanged (this r w) (this r w').

Definition is_destroy_result (e : event) : Prop :=
  match e with
  | EvDestroyResult _ _ => True
  | _ => False
  end.

(** A root object as [RootState.destroy] leaves it. *)
Definition destroyedRoot : RootState := mkRoot None false true NoRender.

(** Two registered renderers with one rendered root each; the clock has
    advanced since, renderer 0 has revalidated and renderer 1 has not. *)
Definition twoRenderers (count : nat) : World :=
  let w0 := newWorld true 10 5%Z in
  let w1 := world_of (appendTo 9 0 100 [] [] w0) w0 in
  let w2 := world_of (appendTo 9 1 200 [] [] w1) w1 in
  let w3 := set_clock w2 6%Z in
  set_loops (world_of (_revalidate 9 0 w3) w3) count.

(** [P] holds of the world in which the call ends, if it ends. *)
Definition ends_in (P : World -> Prop) (res : Res) : Prop :=
  match res with
  | Ok w' => P w'
  | Err _ w' => P w'
  | OutOfFuel => True
  end.

(** The settle signal is as it was and has not been resolved. *)
Definition settle_untouched (w w' : World) : Prop :=
  renderSettledDeferred w' = renderSettledDeferred w
  /\ nextDeferred w' = nextDeferred w
  /\ exists evs, log w' = log w ++ evs /\ Forall (fun e => is_resolve e = false) evs.

(** One registered renderer with one rendered root, all valid, and an
    outstanding settle signal asked for outside of a run loop. *)
Definition settling : World :=
  let w0 := newWorld true 10 5%Z in
  snd (renderSettled (world_of (appendTo 9 0 100 [] [] w0) w0)).

(** [n] calls of [root.render()] in a row. *)
Fixpoint render_times (rec : nat -> World -> Res) (n : nat) (r id : nat)
    (w : World) : Res :=
  match n with
  | 0 => Ok w
  | S n' => RootState_render rec r id w >>= render_times rec n' r id
  end.

(** A production build ([DEBUG] off): the root of [oneRoot] throws in its
    first render; later the clock advances. *)
Definition failedOnce : World :=
  let w := oneRoot false [Throw] [] in
  set_clock (world_of (_renderRootsTransaction 9 0 w) w) 6%Z.

(** With [DEBUG] on: the world after the first render of that root threw. *)
Definition renderFailed : World :=
  let w := oneRoot true [Throw] [] in
  world_of (RootState_render (_renderRootsTransaction 8) 0 0 w) w.

(** A renderer after its only root was attached and removed again. *)
Definition lastRootRemoved : World :=
  let w0 := newWorld true 10 5%Z in
  world_of (appendTo 9 0 100 [] [] w0 >>= remove 0 100) w0.

(** The world with some more events in the log. *)
Definition emits (es : list event) (w : World) : World :=
  mkWorld (DEBUG w) (_RERENDER_LOOP_LIMIT w) (objs w) (renderers w) (loops w)
    (renderSettledDeferred w) (nextDeferred w) (currentRunLoop w) (clock w)
    (log w ++ es).

(** A root that is alive, has been rendered, and whose rerender does
    nothing to the renderer. *)
Definition quiet (s : RootState) : Prop :=
  destroyed s = false /\ render s = Rerender [].


(** The end of [_renderRoots] and [_renderRootsTransaction] after the
    [do ... while] loop has left the world [w], when nothing was queued for
    removal and roots remain. *)
Definition committed (r : nat) (w : World) : World :=
  set_this r (set_lastRevision (this r w) (valueForTag w)) w.

Definition finish (r a : nat) (w : World) : World :=
  let w1 := set_array r a (array r a w) (set_this r (set_removedRoots (this r w) []) w) in
  set_this r (set_inRenderTransaction (this r w1) false) w1.

(** ** An application, for examples of lookups *)

Module ResolverExamples.
Import Resolver.

Definition host : Host :=
  mkHost (fun _ => None) (fun _ => CURLY_COMPONENT_MANAGER)
    (fun _ => true) (fun _ => false) true "component:-default".

(** An owner with the component [x-foo] (a class and a template), and with
    a helper registered under the name of the built-in [if]. *)
Definition owner : Owner :=
  mkOwner 1
    (fun fullName =>
       if String.eqb fullName "template:components/x-foo"
       then Some (fun o => 40 + o) else None)
    (fun fullName =>
       if String.eqb fullName "component:x-foo"
       then Some (mkFactory 7 (Some 3)) else None)
    (fun fullName => String.eqb fullName "helper:if").

Definition definition_of_x_foo : ResolvedComponentDefinition :=
  mkDefinition 0 (StateFactory (mkFactory 7 (Some 3))) CURLY_COMPONENT_MANAGER (Some 41).

Definition first_lookup : outcome (option ResolvedComponentDefinition) :=
  lookupComponent host "x-foo" owner newResolver.

Definition resolver_after_first_lookup : ResolverImpl :=
  match first_lookup with
  | Returned _ s => s
  | Raised _ s => s
  end.
End ResolverExamples.

(** ** Runs of attach and detach *)

(** Scripts that never destroy the renderer, in any root they append. *)
Fixpoint plain (a : action) : bool :=
  match a with
  | Append _ first again => forallb plain first && forallb plain again
  | DestroyRenderer => false
  | _ => true
  end.

Definition plain_fn (f : render_fn) : bool :=
  match f with
  | InitialRender first again => forallb plain first && forallb plain again
  | Rerender again => forallb plain again
  | _ => true
  end.

(** The roots that were attached to the renderer and not destroyed since,
    in the order in which they were attached. *)
Definition attached_roots (x : Renderer) : list nat :=
  filter (fun id => destroyed (store x id) = false) (seq 0 (nextRoot x)).

(** The state of a renderer that has not been destroyed, between two calls
    of its interface: [_roots] is the array [a] and holds the attached roots
    that are alive, and nothing is queued for removal. *)
Definition consistent (a : nat) (x : Renderer) : Prop :=
  _roots x = a
  /\ _destroyed x = false
  /\ _removedRoots x = []
  /\ arrays x a = attached_roots x
  /\ forall id, plain_fn (render (store x id)) = true.

Definition keeps (a r : nat) (f : World -> Res) : Prop :=
  forall w, consistent a (this r w) ->
            ends_in (fun w' => consistent a (this r w')) (f w).

(** The calls that application code makes from outside of a render. *)
Inductive op : Type :=
| Attach (view : nat) (first again : list action)
| Detach (view : nat)
| Write
| Revalidate
| Destroy.

Definition plain_op (o : op) : bool :=
  match o with
  | Attach _ first again => forallb plain first && forallb plain again
  | Destroy => false
  | _ => true
  end.

Definition run_op (fuel r : nat) (o : op) (w : World) : Res :=
  match o with
  | Attach view first again => appendTo fuel r view first again w
  | Detach view => remove r view w
  | Write => Ok (set_clock w (clock w + 1)%Z)
  | Revalidate => _revalidate fuel r w
  | Destroy => destroy r w
  end.

(** A sequence of calls; a call that throws leaves the world it threw in to
    the next call. *)
Fixpoint run (fuel r : nat) (ops : list op) (w : World) : option World :=
  match ops with
  | [] => Some w
  | o :: rest =>
      match run_op fuel r o w with
      | Ok w' => run fuel r rest w'
      | Err _ w' => run fuel r rest w'
      | OutOfFuel => None
      end
  end.


(** From [w] to [w'] no root of renderer [r] whose render function was the
    one that warns, or [undefined], got a render function that renders. *)
Definition failed_stay_failed (r : nat) (w w' : World) : Prop :=
  nextRoot (this r w) <= nextRoot (this r w')
  /\ forall id, id < nextRoot (this r w) ->
       (render (rootState r id w) = Warn ->
        render (rootState r id w') = Warn \/ render (rootState r id w') = NoRender)
       /\ (render (rootState r id w) = NoRender ->
           render (rootState r id w') = NoRender).

Module PartialsExamples.
Import Resolver.

(** An owner with the partial [users/_card] and the template
    [users/card]. *)
Definition owner : Owner :=
  mkOwner 1
    (fun fullName =>
       if String.eqb fullName "template:users/_card" then Some (fun o => 70 + o)
       else if String.eqb fullName "template:users/card" then Some (fun o => 80 + o)
       else None)
    (fun _ => None)
    (fun _ => false).
End PartialsExamples.

(** ** The cache of component definitions *)

Module ResolverState.
Import Resolver.

(** The resolver in which a lookup ends, whether it returns or raises. *)
Definition state_of {A : Type} (o : outcome A) : ResolverImpl :=
  match o with
  | Returned _ s => s
  | Raised _ s => s
  end.

(** The definitions in the cache were made by earlier lookups, one object
    for each key. *)
Definition cache_wf (s : ResolverImpl) : Prop :=
  (forall k d, componentDefinitionCache s !! k = Some d -> def_id d < nextDefinition s)
  /\ (forall k1 k2 d1 d2,
        componentDefinitionCache s !! k1 = Some d1 ->
        componentDefinitionCache s !! k2 = Some d2 ->
        def_id d1 = def_id d2 -> k1 = k2).

End ResolverState.

Module LookupExamples.
Import Resolver.

Definition host : Host :=
  mkHost (fun c => if Nat.eqb c 3 then Some (fun o => 60 + o) else None)
    (fun _ => CURLY_COMPONENT_MANAGER)
    (fun _ => true) (fun c => Nat.eqb c 5) true "component:-default".

(** An owner with: the component [x-foo], whose class 3 has a template set
    on it, and a template registered for it as well; the names [x-bar] and
    [x-baz] for one template without a component; a factory without a class
    for [x-none]; the classic helper [shout] and the helper [plain]; a
    registration under the name [helper:toString]. *)
Definition owner : Owner :=
  mkOwner 1
    (fun fullName =>
       if String.eqb fullName "template:components/x-foo" then Some (fun o => 40 + o)
       else if String.eqb fullName "template:components/x-bar" then Some (fun o => 50 + o)
       else if String.eqb fullName "template:components/x-baz" then Some (fun o => 50 + o)
       else None)
    (fun fullName =>
       if String.eqb fullName "component:x-foo" then Some (mkFactory 7 (Some 3))
       else if String.eqb fullName "component:x-none" then Some (mkFactory 8 None)
       else if String.eqb fullName "helper:shout" then Some (mkFactory 9 (Some 5))
       else if String.eqb fullName "helper:plain" then Some (mkFactory 10 (Some 6))
       else None)
    (fun fullName => String.eqb fullName "helper:toString").

End LookupExamples.

(** ** More states used in examples *)

(** A renderer with the rendered roots of the views 100 and 101; the
    renderer is registered. *)
Definition twoRoots : World :=
  let w0 := newWorld true 10 5%Z in
  let w1 := world_of (appendTo 9 0 100 [] [] w0) w0 in
  world_of (appendTo 9 0 101 [] [] w1) w1.

(** That renderer after tracked state was written. *)
Definition twoRootsDirty : World := set_clock twoRoots 6%Z.


(** ** Owners kept in a map, for examples *)

Module OwnerExamples.

Definition get (g : gmap nat nat) (object : nat) : option nat := g !! object.

Definition set (g : gmap nat nat) (object owner : nat) : gmap nat nat :=
  <[object := owner]> g.

(** The object 5 has the owner 1 as its own property [LEGACY_OWNER] only,
    as a copy made with [Object.assign] has; the object 6 was made with
    [Object.create] from the object 5. *)
Definition copied : Owners.Heap (gmap nat nat) :=
  Owners.mkHeap ∅ (fun o => if Nat.eqb o 6 then [5] else []) {[ 5 := 1 ]} [].

End OwnerExamples.


(** A registered renderer with two roots: the first has been rendered and
    its rerender removes its own view 100; the second, for the view 101, has
    just been pushed by [_renderRoot] and is not rendered yet. *)
Definition selfRemoving : World :=
  let w := newWorld true 10 5%Z in
  let first := mkRoot (Some 100) true false (Rerender [Remove 100]) in
  let second := mkRoot (Some 101) false false (InitialRender [] []) in
  let x := set_store newRenderer (upd (upd (store newRenderer) 0 first) 1 second) 2 in
  set_renderers (set_this 0 (set_arrays x (upd (arrays x) 0 [0; 1])) w) [0].

(** ** Render functions that attach views *)


(** The number of views an action attaches, itself or through the first
    renders of the views it attaches. *)
Fixpoint attached (a : action) : nat :=
  match a with
  | Append _ first _ => S (list_sum (map attached first))
  | _ => 0
  end.






(** *** Equations for reads after writes *)

Lemma upd_eq {A : Type} (f : nat -> A) i x : upd f i x i = x.
Proof. unfold upd. now rewrite Nat.eqb_refl. Qed.

Lemma upd_ne {A : Type} (f : nat -> A) i j x : j <> i -> upd f i x j = f j.
Proof. intros H. unfold upd. now apply Nat.eqb_neq in H as ->. Qed.

Lemma this_set_this r x w : this r (set_this r x w) = x.
Proof. unfold this, set_this. simpl. apply upd_eq. Qed.

Lemma this_set_this_ne r q x w : q <> r -> this q (set_this r x w) = this q w.
Proof. intros H. unfold this, set_this. simpl. now apply upd_ne. Qed.

Lemma array_set_array r a l w : array r a (set_array r a l w) = l.
Proof. unfold array, set_array. rewrite this_set_this. simpl. apply upd_eq. Qed.

Lemma array_set_array_ne r a b l w :
  b <> a -> array r b (set_array r a l w) = array r b w.
Proof.
  intros H. unfold array, set_array. rewrite this_set_this. simpl.
  now apply upd_ne.
Qed.

Lemma rootState_set_rootState r i s w : rootState r i (set_rootState r i s w) = s.
Proof. unfold rootState, set_rootState. rewrite this_set_this. simpl. apply upd_eq. Qed.

Lemma rootState_set_rootState_ne r i j s w :
  j <> i -> rootState r j (set_rootState r i s w) = rootState r j w.
Proof.
  intros H. unfold rootState, set_rootState. rewrite this_set_this. simpl.
  now apply upd_ne.
Qed.

(** Symbolic evaluation of reads after writes: everything is unfolded down
    to [objs], [upd] and record projections. *)
Ltac unf :=
  try unfold roots_of in *; try unfold rootState in *; try unfold array in *;
  try unfold set_array in *; try unfold set_rootState in *;
  try unfold set_this in *; try unfold this in *.

Ltac norm :=
  unf; repeat (progress (cbn -[upd Z.add Z.leb Z.ltb Z.eqb indexOf splice1] in * )
               || rewrite !upd_eq in * ).

Ltac normg :=
  unfold roots_of, rootState, array, set_array, set_rootState, set_this, this,
    committed, finish;
  repeat (progress (cbn -[upd Z.add Z.leb Z.ltb Z.eqb indexOf splice1])
          || rewrite !upd_eq).

(** *** [indexOf] and [splice] *)

Lemma indexOf_bounds x l : (-1 <= indexOf x l < Z.of_nat (length l))%Z.
Proof.
  induction l as [ | y l IH]; simpl; [ lia | ].
  destruct (Nat.eqb y x); [ lia | ].
  destruct (Z.ltb_spec (indexOf x l) 0); lia.
Qed.

Lemma indexOf_absent x l : indexOf x l = (-1)%Z <-> x ∉ l.
Proof.
  induction l as [ | y l IH]; simpl.
  - split; [ intros _; apply not_elem_of_nil | reflexivity ].
  - rewrite not_elem_of_cons. destruct (Nat.eqb_spec y x) as [-> | Hne].
    + split; [ discriminate | intros [H _]; now contradiction H ].
    + pose proof (indexOf_bounds x l).
      destruct (Z.ltb_spec (indexOf x l) 0).
      * split; [ intros _ | reflexivity ].
        split; [ congruence | apply IH; lia ].
      * split; [ lia | ]. intros [_ H1]. apply IH in H1. lia.
Qed.

Lemma indexOf_middle x pre post :
  x ∉ pre -> indexOf x (pre ++ x :: post) = Z.of_nat (length pre).
Proof.
  induction pre as [ | y pre IH]; simpl; intros H.
  - now rewrite Nat.eqb_refl.
  - apply not_elem_of_cons in H as [Hne Hpre].
    destruct (Nat.eqb_spec y x) as [-> | _]; [ now contradiction Hne | ].
    rewrite (IH Hpre).
    destruct (Z.ltb_spec (Z.of_nat (length pre)) 0); lia.
Qed.

Lemma delete_ge_length (l : list nat) i : length l <= i -> delete i l = l.
Proof.
  revert i. induction l as [ | y l IH]; intros [ | i] Hi; simpl in *;
    try reflexivity; try lia.
  f_equal. apply IH. lia.
Qed.

Lemma splice1_nat i l : splice1 (Z.of_nat i) l = delete i l.
Proof.
  unfold splice1. destruct (Z.ltb_spec (Z.of_nat i) 0); [ lia | ].
  destruct (Nat.le_gt_cases (length l) i).
  - rewrite Z.min_r by lia. rewrite Nat2Z.id.
    rewrite !delete_ge_length by lia. reflexivity.
  - rewrite Z.min_l by lia. now rewrite Nat2Z.id.
Qed.

Lemma splice1_middle (x : nat) pre post :
  splice1 (Z.of_nat (length pre)) (pre ++ x :: post) = pre ++ post.
Proof. rewrite splice1_nat. apply delete_middle. Qed.

(** [splice(-1, 1)] removes the last entry. *)
Lemma splice1_minus_one l (x : nat) : splice1 (-1) (l ++ [x]) = l.
Proof.
  unfold splice1. simpl (_ <? _)%Z. cbv iota.
  rewrite length_app. simpl.
  replace (Z.max (Z.of_nat (length l + 1) + -1) 0) with (Z.of_nat (length l)) by lia.
  rewrite Nat2Z.id.
  replace (l ++ [x]) with (l ++ x :: []) by reflexivity.
  rewrite delete_middle. apply app_nil_r.
Qed.

(** *** Destroying roots *)

Lemma only_roots_changed_refl r w : only_roots_changed r w w.
Proof. repeat split. Qed.

Lemma only_roots_changed_trans r w1 w2 w3 :
  only_roots_changed r w1 w2 -> only_roots_changed r w2 w3 ->
  only_roots_changed r w1 w3.
Proof.
  unfold only_roots_changed, module_unchanged, fields_unchanged.
  intros (M1 & O1 & F1) (M2 & O2 & F2).
  repeat split; try (intros q Hq; rewrite O2, O1 by assumption; reflexivity);
    intuition congruence.
Qed.

Lemma only_roots_changed_set_rootState r i s w :
  only_roots_changed r w (set_rootState r i s w).
Proof.
  repeat split; try reflexivity;
    try (intros q Hq; unfold set_rootState; now apply this_set_this_ne);
    unfold set_rootState; now rewrite this_set_this.
Qed.

Lemma only_roots_changed_emit r e w : only_roots_changed r w (emit e w).
Proof. repeat split. Qed.

Lemma rootState_emit r i e w : rootState r i (emit e w) = rootState r i w.
Proof. reflexivity. Qed.

Lemma RootState_destroy_live r i w :
  destroyed (rootState r i w) = false ->
  exists w' evs,
    RootState_destroy r i w = Ok w'
    /\ only_roots_changed r w w'
    /\ rootState r i w' = destroyedRoot
    /\ (forall j, j <> i -> rootState r j w' = rootState r j w)
    /\ log w' = log w ++ evs /\ Forall is_destroy_result evs.
Proof.
  intros Hlive. unfold RootState_destroy. rewrite Hlive.
  destruct (result (rootState r i w)).
  - eexists _, [EvDestroyResult r i]. split; [ reflexivity | ].
    split; [ eapply only_roots_changed_trans;
             [ apply only_roots_changed_set_rootState | apply only_roots_changed_emit ] | ].
    split; [ rewrite rootState_emit; apply rootState_set_rootState | ].
    split; [ intros j Hj; rewrite rootState_emit; now apply rootState_set_rootState_ne | ].
    split; [ reflexivity | repeat constructor ].
  - eexists _, []. split; [ reflexivity | ].
    split; [ apply only_roots_changed_set_rootState | ].
    split; [ apply rootState_set_rootState | ].
    split; [ intros j Hj; now apply rootState_set_rootState_ne | ].
    split; [ now rewrite app_nil_r | constructor ].
Qed.

Lemma destroyEach_live r l : forall w,
  NoDup l ->
  (forall i, i ∈ l -> destroyed (rootState r i w) = false) ->
  exists w' evs,
    destroyEach l r w = Ok w'
    /\ only_roots_changed r w w'
    /\ (forall i, i ∈ l -> rootState r i w' = destroyedRoot)
    /\ (forall j, j ∉ l -> rootState r j w' = rootState r j w)
    /\ log w' = log w ++ evs /\ Forall is_destroy_result evs.
Proof.
  induction l as [ | i l IH]; intros w Hnd Hlive; simpl.
  - exists w, []. split; [ reflexivity | ].
    split; [ apply only_roots_changed_refl | ].
    split; [ intros i Hi; now apply elem_of_nil in Hi | ].
    split; [ reflexivity | ].
    split; [ now rewrite app_nil_r | constructor ].
  - apply NoDup_cons in Hnd as [Hi Hnd].
    destruct (RootState_destroy_live r i w) as (w1 & evs1 & -> & Hc1 & Hd1 & Ho1 & Hl1 & He1).
    { apply Hlive. left. }
    simpl.
    destruct (IH w1 Hnd) as (w2 & evs2 & -> & Hc2 & Hd2 & Ho2 & Hl2 & He2).
    { intros j Hj. rewrite Ho1; [ apply Hlive; now right | ].
      intros ->. contradiction. }
    exists w2, (evs1 ++ evs2). split; [ reflexivity | ].
    split; [ eapply only_roots_changed_trans; eassumption | ].
    split.
    { intros j Hj. apply elem_of_cons in Hj as [-> | Hj]; [ | now apply Hd2 ].
      rewrite Ho2 by assumption. exact Hd1. }
    split.
    { intros j Hj. apply not_elem_of_cons in Hj as [Hne Hj].
      rewrite Ho2 by assumption. now apply Ho1. }
    split; [ rewrite Hl2, Hl1; now rewrite app_assoc | ].
    now apply Forall_app.
Qed.

Lemma destroy_live r w pre post :
  _destroyed (this r w) = false ->
  roots_of r w <> [] ->
  NoDup (roots_of r w) ->
  (forall i, i ∈ roots_of r w -> destroyed (rootState r i w) = false) ->
  renderers w = pre ++ r :: post ->
  r ∉ pre ->
  exists w' evs,
    destroy r w = Ok w'
    /\ _destroyed (this r w') = true
    /\ roots_of r w' = []
    /\ _removedRoots (this r w') = []
    /\ (forall i, i ∈ roots_of r w -> rootState r i w' = destroyedRoot)
    /\ renderers w' = pre ++ post
    /\ loops w' = loops w
    /\ renderSettledDeferred w' = renderSettledDeferred w
    /\ (forall q, q <> r -> this q w' = this q w)
    /\ log w' = log w ++ evs /\ Forall is_destroy_result evs.
Proof.
  intros Hnd Hne Hdup Hlive Hreg Hpre.
  unfold destroy. rewrite Hnd. unfold _clearAllRoots.
  set (w0 := set_this r (set_destroyed (this r w) true) w).
  assert (Hroots0 : array r (_roots (this r w0)) w0 = roots_of r w).
  { unfold w0. now norm. }
  rewrite Hroots0.
  destruct (destroyEach_live r (roots_of r w) w0 Hdup)
    as (w1 & evs & -> & (Hm & Ho & Hf) & Hd & _ & Hl & He).
  { intros i Hi. unfold w0. norm. now apply Hlive. }
  destruct Hm as (_ & _ & Hr1 & Hloops1 & Hdef1 & _).
  destruct Hf as (_ & Harr1 & Hroots1 & _ & _ & _ & Hdes1).
  unfold w0 in *. clear w0. norm.
  rewrite Hroots1, Harr1. norm.
  rewrite upd_ne by lia.
  destruct (arrays (objs w r) (_roots (objs w r))) as [ | i0 l0] eqn:Hl0;
    [ congruence | ].
  norm. unfold deregister. norm.
  rewrite Hr1, Hreg, indexOf_middle by assumption.
  replace (negb (Z.of_nat (length pre) =? -1)%Z) with true
    by (symmetry; apply negb_true_iff, Z.eqb_neq; lia).
  norm. rewrite Hr1, Hreg, splice1_middle.
  eexists _, evs. split; [ reflexivity | ]. norm.
  repeat split; auto.
  intros q Hq. rewrite upd_ne by assumption. rewrite Ho by assumption.
  now rewrite upd_ne by assumption.
Qed.

(** *** What no call of a renderer changes

    A relation between worlds that is reflexive and transitive and holds
    across every write that the methods of renderer [r0] perform holds
    between the world in which a method is called and the one in which it
    ends. *)
Section Frame.

Variable F : World -> World -> Prop.
Variable r0 : nat.
Hypothesis F_refl : forall w, F w w.
Hypothesis F_trans : forall a b c, F a b -> F b c -> F a c.
Hypothesis F_this : forall w x, F w (set_this r0 x w).
Hypothesis F_renderers : forall w l, F w (set_renderers w l).
Hypothesis F_clock : forall w c, F w (set_clock w c).
Hypothesis F_render : forall w i, F w (emit (EvRender r0 i) w).
Hypothesis F_warn : forall w i, F w (emit (EvWarn r0 i) w).
Hypothesis F_destroy_result : forall w i, F w (emit (EvDestroyResult r0 i) w).

Lemma frame_bind w m k :
  ends_in (F w) m ->
  (forall w1, F w w1 -> ends_in (F w) (k w1)) ->
  ends_in (F w) (m >>= k).
Proof. destruct m; simpl; auto. Qed.

Lemma frame_step w w1 res :
  F w w1 -> ends_in (F w1) res -> ends_in (F w) res.
Proof. destruct res; simpl; eauto. Qed.

Lemma frame_array w a l : F w (set_array r0 a l w).
Proof. apply F_this. Qed.

Lemma frame_rootState w i s : F w (set_rootState r0 i s w).
Proof. apply F_this. Qed.

Lemma frame_register w : ends_in (F w) (register r0 w).
Proof.
  unfold register, assert.
  destruct (indexOf r0 (renderers w) =? -1)%Z; simpl; auto.
Qed.

Lemma frame_deregister w : ends_in (F w) (deregister r0 w).
Proof.
  unfold deregister, assert.
  destruct (negb _); simpl; auto.
Qed.

Lemma frame_RootState_destroy w i : ends_in (F w) (RootState_destroy r0 i w).
Proof.
  unfold RootState_destroy.
  destruct (destroyed _); simpl; auto.
  destruct (result _); [ | apply frame_rootState ].
  eapply F_trans; [ apply frame_rootState | apply F_destroy_result ].
Qed.

Lemma frame_cleanupLoop i : forall a view w,
  ends_in (F w) (cleanupLoop i r0 a view w).
Proof.
  induction i as [ | i IH]; intros a view w; simpl; auto.
  destruct (array r0 a w !! i) as [id | ]; simpl; auto.
  destruct (isFor _ view); auto.
  apply frame_bind; [ apply frame_RootState_destroy | ].
  intros w1 H1. eapply frame_step; [ | apply IH ].
  eapply F_trans; [ exact H1 | apply frame_array ].
Qed.

Lemma frame_cleanupRootFor view w : ends_in (F w) (cleanupRootFor r0 view w).
Proof.
  unfold cleanupRootFor. destruct (_destroyed _); simpl; auto.
  apply frame_cleanupLoop.
Qed.

Lemma frame_destroyEach l : forall w, ends_in (F w) (destroyEach l r0 w).
Proof.
  induction l as [ | i l IH]; intros w; simpl; auto.
  apply frame_bind; [ apply frame_RootState_destroy | ].
  intros w1 H1. eapply frame_step; [ exact H1 | apply IH ].
Qed.

Lemma frame_clearAllRoots w : ends_in (F w) (_clearAllRoots r0 w).
Proof.
  unfold _clearAllRoots.
  apply frame_bind; [ apply frame_destroyEach | ].
  intros w1 H1. eapply frame_step; [ exact H1 | ].
  eapply frame_step; [ apply F_this | ].
  destruct (negb _); [ apply frame_deregister | simpl; auto ].
Qed.

Lemma frame_destroy w : ends_in (F w) (destroy r0 w).
Proof.
  unfold destroy. destruct (_destroyed _); simpl; auto.
  eapply frame_step; [ apply F_this | apply frame_clearAllRoots ].
Qed.

Section WithCalls.

Variable rec : nat -> World -> Res.
Hypothesis frame_rec : forall w, ends_in (F w) (rec r0 w).

Lemma frame_renderRoot id w : ends_in (F w) (_renderRoot rec r0 id w).
Proof.
  unfold _renderRoot.
  eapply frame_step; [ apply frame_array | ].
  apply frame_bind.
  - destruct (_ =? 1); [ apply frame_register | simpl; auto ].
  - intros w1 H1. eapply frame_step; [ exact H1 | apply frame_rec ].
Qed.

Lemma frame_appendDefinition view first again w :
  ends_in (F w) (_appendDefinition rec r0 view first again w).
Proof.
  unfold _appendDefinition.
  eapply frame_step; [ apply F_this | apply frame_renderRoot ].
Qed.

Lemma frame_perform a w : ends_in (F w) (perform rec r0 a w).
Proof.
  destruct a; simpl; auto.
  - apply frame_appendDefinition.
  - apply frame_cleanupRootFor.
  - apply frame_destroy.
Qed.

Lemma frame_exec acts : forall w, ends_in (F w) (exec rec r0 acts w).
Proof.
  induction acts as [ | a acts IH]; intros w; simpl; auto.
  apply frame_bind; [ apply frame_perform | ].
  intros w1 H1. eapply frame_step; [ exact H1 | apply IH ].
Qed.

Lemma frame_errorLoopTransaction id body w :
  ends_in (F w) (body w) ->
  ends_in (F w) (errorLoopTransaction r0 id body w).
Proof.
  unfold errorLoopTransaction. destruct (body w) as [w1 | e w1 | ]; simpl; auto.
  intros H1. destruct (DEBUG w1); simpl; auto.
  destruct (render _); simpl; auto;
    (eapply F_trans; [ exact H1 | apply frame_rootState ]).
Qed.

Lemma frame_RootState_render id w :
  ends_in (F w) (RootState_render rec r0 id w).
Proof.
  unfold RootState_render. destruct (render _); simpl; auto.
  - apply frame_errorLoopTransaction.
    eapply frame_step; [ apply F_render | ].
    apply frame_bind; [ apply frame_exec | ].
    intros w1 H1. simpl. eapply F_trans; [ exact H1 | apply frame_rootState ].
  - apply frame_errorLoopTransaction.
    eapply frame_step; [ apply F_render | apply frame_exec ].
Qed.

Lemma frame_forRoots fuel : forall a initial i w,
  ends_in (F w) (forRoots rec fuel r0 a initial i w).
Proof.
  induction fuel as [ | fuel IH]; intros a initial i w; simpl; auto.
  destruct (array r0 a w !! i) as [id | ]; simpl; auto.
  destruct (destroyed _).
  - eapply frame_step; [ apply F_this | apply IH ].
  - destruct (initial <=? i); [ apply IH | ].
    apply frame_bind; [ apply frame_RootState_render | ].
    intros w1 H1. eapply frame_step; [ exact H1 | apply IH ].
Qed.

Lemma frame_doWhile fuel : forall a w,
  ends_in (F w) (doWhile rec fuel r0 a w).
Proof.
  induction fuel as [ | fuel IH]; intros a w; simpl; auto.
  apply frame_bind; [ apply frame_forRoots | ].
  intros w1 H1. eapply frame_step; [ exact H1 | ].
  eapply frame_step; [ apply F_this | ].
  destruct (_ <? _); [ apply IH | simpl; auto ].
Qed.

Lemma frame_renderRoots fuel w : ends_in (F w) (_renderRoots rec fuel r0 w).
Proof.
  unfold _renderRoots.
  apply frame_bind; [ apply frame_doWhile | ].
  intros w1 H1. eapply frame_step; [ exact H1 | ].
  eapply frame_step; [ eapply F_trans; [ apply F_this | apply frame_array ] | ].
  destruct (_ =? 0); [ apply frame_deregister | simpl; auto ].
Qed.

Lemma frame_renderRootsTransaction_body fuel w :
  ends_in (F w) (_renderRootsTransaction_body rec fuel r0 w).
Proof.
  unfold _renderRootsTransaction_body.
  destruct (_inRenderTransaction _); simpl; auto.
  pose proof (frame_renderRoots fuel
                (set_this r0 (set_inRenderTransaction (this r0 w) true) w)) as H.
  destruct (_renderRoots _ _ _ _) as [w2 | e w2 | ]; simpl in *; auto.
  all: eapply F_trans; [ apply F_this | ].
  all: eapply F_trans; [ exact H | apply F_this ].
Qed.

End WithCalls.

Lemma frame_renderRootsTransaction fuel : forall w,
  ends_in (F w) (_renderRootsTransaction fuel r0 w).
Proof.
  induction fuel as [ | fuel IH]; intros w; simpl; auto.
  now apply frame_renderRootsTransaction_body.
Qed.

Lemma frame_appendTo fuel view first again w :
  ends_in (F w) (appendTo fuel r0 view first again w).
Proof. apply frame_appendDefinition. apply frame_renderRootsTransaction. Qed.

Lemma frame_remove view w : ends_in (F w) (remove r0 view w).
Proof. apply frame_cleanupRootFor. Qed.

Lemma frame_revalidate fuel w : ends_in (F w) (_revalidate fuel r0 w).
Proof.
  unfold _revalidate. destruct (_isValid _ _); simpl; auto.
  apply frame_renderRootsTransaction.
Qed.

End Frame.

(** *** Attaching and removing keep the roots consistent *)

Lemma filter_ext_elem (P Q : nat -> Prop)
    `{!forall x, Decision (P x)} `{!forall x, Decision (Q x)} (l : list nat) :
  (forall x, x ∈ l -> (P x <-> Q x)) -> filter P l = filter Q l.
Proof.
  induction l as [ | y l IH]; intros Hext; [ reflexivity | ].
  rewrite !filter_cons.
  rewrite IH by (intros x Hx; apply Hext; now right).
  destruct (decide (P y)) as [Hp | Hp], (decide (Q y)) as [Hq | Hq];
    try reflexivity.
  - exfalso. apply Hq. apply (Hext y); [ left | exact Hp ].
  - exfalso. apply Hp. apply (Hext y); [ left | exact Hq ].
Qed.

Lemma attached_roots_ext x x' :
  nextRoot x' = nextRoot x ->
  (forall id, id < nextRoot x -> destroyed (store x' id) = destroyed (store x id)) ->
  attached_roots x' = attached_roots x.
Proof.
  intros Hn Hd. unfold attached_roots. rewrite Hn.
  apply filter_ext_elem. intros id Hid. apply elem_of_seq in Hid.
  rewrite Hd by lia. reflexivity.
Qed.

Lemma attached_roots_alloc x s :
  destroyed s = false ->
  attached_roots (set_store x (upd (store x) (nextRoot x) s) (S (nextRoot x)))
  = attached_roots x ++ [nextRoot x].
Proof.
  intros Hs. unfold attached_roots. cbn [nextRoot set_store store].
  rewrite seq_S, filter_app. simpl. f_equal.
  - apply filter_ext_elem. intros id Hid. apply elem_of_seq in Hid.
    rewrite upd_ne by lia. reflexivity.
  - rewrite filter_cons, filter_nil, upd_eq.
    destruct (decide _); [ reflexivity | contradiction ].
Qed.

Lemma attached_roots_alive x id :
  id ∈ attached_roots x <-> id < nextRoot x /\ destroyed (store x id) = false.
Proof.
  unfold attached_roots. rewrite list_elem_of_filter, elem_of_seq.
  split; intros [H1 H2]; split; auto; lia.
Qed.

Lemma attached_roots_NoDup x : NoDup (attached_roots x).
Proof. apply NoDup_filter, NoDup_seq. Qed.

(** The renderer [r] is all that [consistent] looks at. *)
Lemma keeps_bind a r f g :
  keeps a r f -> keeps a r g -> keeps a r (fun w => f w >>= g).
Proof.
  intros Hf Hg w Hw. specialize (Hf w Hw).
  destruct (f w) as [w1 | e w1 | ]; simpl in *; auto.
Qed.

Lemma keeps_register a r : keeps a r (register r).
Proof.
  intros w Hw. unfold register, assert.
  destruct (indexOf r (renderers w) =? -1)%Z; exact Hw.
Qed.

Lemma keeps_deregister a r : keeps a r (deregister r).
Proof.
  intros w Hw. unfold deregister, assert.
  destruct (negb _); exact Hw.
Qed.

Lemma consistent_set_root a x id s :
  consistent a x ->
  destroyed s = destroyed (store x id) ->
  plain_fn (render s) = true ->
  consistent a (set_store x (upd (store x) id s) (nextRoot x)).
Proof.
  intros (H1 & H2 & H3 & H4 & H5) Hd Hp.
  repeat split; try assumption.
  - cbn [arrays set_store]. rewrite H4. symmetry.
    apply attached_roots_ext; [ reflexivity | ].
    intros j _. cbn [store set_store]. unfold upd.
    destruct (Nat.eqb_spec j id) as [-> | _]; auto.
  - intros j. cbn [store set_store]. unfold upd.
    destruct (Nat.eqb_spec j id) as [-> | _]; auto.
Qed.

Lemma consistent_set_rootState a r id s w :
  consistent a (this r w) ->
  destroyed s = destroyed (rootState r id w) ->
  plain_fn (render s) = true ->
  consistent a (this r (set_rootState r id s w)).
Proof.
  intros Hw Hd Hp. unfold set_rootState. rewrite this_set_this.
  now apply consistent_set_root.
Qed.

Lemma consistent_alloc a x s :
  consistent a x ->
  destroyed s = false ->
  plain_fn (render s) = true ->
  let x1 := set_store x (upd (store x) (nextRoot x) s) (S (nextRoot x)) in
  consistent a (set_arrays x1 (upd (arrays x1) a (arrays x1 a ++ [nextRoot x]))).
Proof.
  intros (H1 & H2 & H3 & H4 & H5) Hd Hp x1.
  repeat split; try assumption.
  - cbn [arrays set_arrays]. rewrite upd_eq.
    unfold x1 at 1. cbn [arrays set_store]. rewrite H4.
    symmetry. exact (attached_roots_alloc x s Hd).
  - intros j. cbn [store set_arrays]. unfold x1. cbn [store set_store]. unfold upd.
    destruct (Nat.eqb_spec j (nextRoot x)) as [-> | _]; auto.
Qed.

(** The loop of [cleanupRootFor], from index [i] down: among the first [i]
    roots of the array those for the view are destroyed and spliced out, and
    nothing else changes. *)
Lemma cleanupLoop_spec r a view : forall i w,
  i <= length (array r a w) ->
  NoDup (array r a w) ->
  (forall id, id ∈ take i (array r a w) -> destroyed (rootState r id w) = false) ->
  exists w',
    cleanupLoop i r a view w = Ok w'
    /\ array r a w'
       = filter (fun id => isFor (rootState r id w) view = false) (take i (array r a w))
         ++ drop i (array r a w)
    /\ (forall id,
          rootState r id w' = rootState r id w
          \/ (rootState r id w' = destroyedRoot
              /\ id ∈ take i (array r a w)
              /\ isFor (rootState r id w) view = true))
    /\ (forall id, id ∈ take i (array r a w) ->
                   isFor (rootState r id w) view = true ->
                   rootState r id w' = destroyedRoot)
    /\ nextRoot (this r w') = nextRoot (this r w)
    /\ _roots (this r w') = _roots (this r w)
    /\ _removedRoots (this r w') = _removedRoots (this r w)
    /\ _destroyed (this r w') = _destroyed (this r w).
Proof.
  induction i as [ | i IH]; intros w Hlen Hnd Hlive.
  - exists w. simpl. rewrite drop_0. repeat split; auto.
    intros id Hid. now apply elem_of_nil in Hid.
  - destruct (lookup_lt_is_Some_2 (array r a w) i) as [id Hid]; [ lia | ].
    cbn [cleanupLoop]. rewrite Hid.
    rewrite (take_S_r _ _ _ Hid) in *.
    assert (Hfresh : id ∉ take i (array r a w)).
    { intros Hin. apply elem_of_take in Hin as (j & Hj & Hlt).
      pose proof (NoDup_lookup _ _ _ _ Hnd Hid Hj). lia. }
    destruct (isFor (rootState r id w) view) eqn:Hfor.
    + destruct (RootState_destroy_live r id w)
        as (w1 & evs & -> & (_ & _ & Hf) & Hd1 & Ho1 & _).
      { apply Hlive. apply elem_of_app. right. left. }
      destruct Hf as (Hn1 & Harr1 & Hp1 & Hr1 & _ & _ & Hdes1).
      cbn [bind].
      set (w2 := set_array r a _ w1).
      assert (Harr2 : array r a w2 = take i (array r a w) ++ drop (S i) (array r a w)).
      { unfold w2. rewrite array_set_array, splice1_nat.
        unfold array at 1. rewrite Harr1. fold (array r a w).
        apply delete_take_drop. }
      assert (Hs2 : forall j, rootState r j w2 = rootState r j w1).
      { intros j. unfold w2. now normg. }
      assert (Htake2 : take i (array r a w2) = take i (array r a w)).
      { rewrite Harr2, take_app_length'; [ reflexivity | ].
        rewrite length_take. lia. }
      assert (Hdrop2 : drop i (array r a w2) = drop (S i) (array r a w)).
      { rewrite Harr2, drop_app_length'; [ reflexivity | ].
        rewrite length_take. lia. }
      destruct (IH w2) as (w3 & -> & Harr3 & Hany3 & Hdes3 & Hn3 & Hp3 & Hr3 & Hd3).
      { rewrite Harr2, length_app, length_take, length_drop. lia. }
      { rewrite Harr2, <- delete_take_drop.
        eapply sublist_NoDup; [ exact Hnd | apply sublist_delete ]. }
      { rewrite Htake2. intros j Hj. rewrite Hs2, Ho1.
        - apply Hlive. apply elem_of_app. now left.
        - intros ->. contradiction. }
      exists w3. split; [ reflexivity | ].
      rewrite Htake2, Hdrop2 in *.
      assert (Hsame : forall j, j ∈ take i (array r a w) ->
                                rootState r j w2 = rootState r j w).
      { intros j Hj. rewrite Hs2, Ho1; [ reflexivity | ].
        intros ->. contradiction. }
      split.
      { rewrite Harr3, filter_app, filter_cons, filter_nil, Hfor.
        rewrite decide_False by discriminate. rewrite app_nil_r. f_equal.
        apply filter_ext_elem. intros j Hj. now rewrite Hsame. }
      split.
      { intros j. destruct (Hany3 j) as [Heq | (Heq & Hin & Hf3)].
        - rewrite Heq, Hs2. destruct (Nat.eq_dec j id) as [-> | Hne].
          + right. rewrite Hd1. split; [ reflexivity | ].
            split; [ apply elem_of_app; right; left | exact Hfor ].
          + left. now apply Ho1.
        - right. split; [ exact Heq | ].
          split; [ apply elem_of_app; now left | ].
          now rewrite <- (Hsame j Hin). }
      split.
      { intros j Hj Hfj. apply elem_of_app in Hj as [Hj | Hj].
        - apply Hdes3; [ exact Hj | ]. now rewrite (Hsame j Hj).
        - apply list_elem_of_singleton in Hj as ->.
          destruct (Hany3 id) as [Heq | (Heq & _)]; [ | exact Heq ].
          now rewrite Heq, Hs2, Hd1. }
      assert (Ht2 : nextRoot (this r w2) = nextRoot (this r w)
                    /\ _roots (this r w2) = _roots (this r w)
                    /\ _removedRoots (this r w2) = _removedRoots (this r w)
                    /\ _destroyed (this r w2) = _destroyed (this r w)).
      { unfold w2. normg. unfold this in *. auto. }
      destruct Ht2 as (E1 & E2 & E3 & E4).
      rewrite Hn3, Hp3, Hr3, Hd3. auto.
    + destruct (IH w) as (w3 & -> & Harr3 & Hany3 & Hdes3 & Hrest).
      { lia. }
      { exact Hnd. }
      { intros j Hj. apply Hlive. apply elem_of_app. now left. }
      exists w3. split; [ reflexivity | ].
      split.
      { rewrite Harr3, filter_app, filter_cons, filter_nil, Hfor.
        rewrite decide_True by reflexivity.
        rewrite <- app_assoc. simpl. f_equal.
        now rewrite (drop_S _ _ _ Hid). }
      split.
      { intros j. destruct (Hany3 j) as [Heq | (Heq & Hin & Hf3)]; [ now left | ].
        right. split; [ exact Heq | ].
        split; [ apply elem_of_app; now left | exact Hf3 ]. }
      split; [ | exact Hrest ].
      intros j Hj Hfj. apply elem_of_app in Hj as [Hj | Hj].
      * now apply Hdes3.
      * apply list_elem_of_singleton in Hj as ->. congruence.
Qed.

Lemma keeps_cleanupRootFor a r view : keeps a r (cleanupRootFor r view).
Proof.
  intros w Hw. pose proof Hw as (H1 & H2 & H3 & H4 & H5).
  unfold cleanupRootFor. rewrite H2, H1.
  destruct (cleanupLoop_spec r a view (length (array r a w)) w)
    as (w' & -> & Harr & Hany & Hdes & Hn & Hp & Hr & Hd).
  { lia. }
  { unfold array. rewrite H4. apply attached_roots_NoDup. }
  { intros id Hid. rewrite take_ge in Hid by lia.
    unfold array in Hid. rewrite H4 in Hid.
    now apply attached_roots_alive in Hid. }
  simpl. rewrite take_ge, drop_ge, app_nil_r in Harr by lia.
  rewrite take_ge in Hany, Hdes by lia.
  repeat split; try congruence.
  - fold (array r a w'). rewrite Harr. unfold array. rewrite H4.
    unfold attached_roots. rewrite list_filter_filter, Hn.
    apply filter_ext_elem. intros id Hid. apply elem_of_seq in Hid.
    fold (rootState r id w) (rootState r id w').
    split.
    + intros [Hfor Hlive].
      destruct (Hany id) as [-> | (_ & _ & Hf)]; [ exact Hlive | congruence ].
    + intros Hlive'.
      destruct (Hany id) as [Heq | (Heq & _ & _)];
        [ | rewrite Heq in Hlive'; discriminate ].
      rewrite Heq in Hlive'. split; [ | exact Hlive' ].
      destruct (isFor (rootState r id w) view) eqn:Hfor; [ | reflexivity ].
      rewrite Hdes in Heq; [ | | exact Hfor ].
      * rewrite <- Heq in Hlive'. discriminate.
      * unfold array. rewrite H4. apply attached_roots_alive.
        split; [ lia | exact Hlive' ].
  - intros id. fold (rootState r id w').
    destruct (Hany id) as [-> | (-> & _)]; [ apply H5 | reflexivity ].
Qed.

Section Consistent.

Variable rec : nat -> World -> Res.
Variables a r : nat.
Hypothesis keeps_rec : keeps a r (rec r).

Lemma keeps_appendDefinition view first again :
  forallb plain first && forallb plain again = true ->
  keeps a r (_appendDefinition rec r view first again).
Proof.
  intros Hplain w Hw. unfold _appendDefinition, _renderRoot. cbv zeta.
  rewrite array_set_array, this_set_this. cbn [_roots set_store].
  set (w1 := set_array r _ _ _).
  assert (H1 : consistent a (this r w1)).
  { pose proof Hw as (Hp & _). unfold w1, set_array, array.
    rewrite !this_set_this. cbn [arrays set_store]. rewrite Hp.
    now apply (consistent_alloc a (this r w)
                 (mkRoot (Some view) false false (InitialRender first again))). }
  destruct (length _ =? 1).
  - exact (keeps_bind a r (register r) (rec r) (keeps_register a r) keeps_rec w1 H1).
  - simpl. now apply keeps_rec.
Qed.

Lemma keeps_perform act :
  plain act = true -> keeps a r (perform rec r act).
Proof.
  destruct act; simpl; intros Hplain w Hw; try discriminate; try exact Hw.
  - now apply keeps_appendDefinition.
  - now apply keeps_cleanupRootFor.
Qed.

Lemma keeps_exec acts :
  forallb plain acts = true -> keeps a r (exec rec r acts).
Proof.
  induction acts as [ | act acts IH]; simpl; intros Hplain w Hw; [ exact Hw | ].
  apply andb_true_iff in Hplain as [H1 H2].
  now apply (keeps_bind a r (perform rec r act) (exec rec r acts)
               (keeps_perform act H1) (IH H2)).
Qed.

Lemma consistent_emit e w : consistent a (this r (emit e w)) <-> consistent a (this r w).
Proof. reflexivity. Qed.

Lemma keeps_errorLoopTransaction id body :
  keeps a r body -> keeps a r (errorLoopTransaction r id body).
Proof.
  intros Hbody w Hw. specialize (Hbody w Hw). unfold errorLoopTransaction.
  destruct (body w) as [w1 | e w1 | ]; simpl in *; auto.
  destruct (DEBUG w1); simpl; auto.
  destruct (render (rootState r id w1)); simpl; auto;
    now apply consistent_set_rootState.
Qed.

Lemma keeps_RootState_render id : keeps a r (RootState_render rec r id).
Proof.
  intros w Hw. unfold RootState_render.
  pose proof Hw as (_ & _ & _ & _ & Hplain). specialize (Hplain id).
  fold (rootState r id w) in Hplain.
  destruct (render (rootState r id w)) as [first again | again | | ];
    simpl in Hplain; simpl; try exact Hw.
  - apply andb_true_iff in Hplain as [Hf Ha].
    apply keeps_errorLoopTransaction; [ | exact Hw ].
    intros w0 Hw0.
    pose proof (keeps_exec first Hf (emit (EvRender r id) w0) Hw0) as He.
    destruct (exec rec r first _) as [w1 | e w1 | ]; simpl in *; auto.
    now apply consistent_set_rootState.
  - apply keeps_errorLoopTransaction; [ | exact Hw ].
    intros w0 Hw0. now apply (keeps_exec again Hplain (emit (EvRender r id) w0)).
Qed.

Lemma keeps_forRoots fuel : forall initial i,
  keeps a r (forRoots rec fuel r a initial i).
Proof.
  induction fuel as [ | fuel IH]; intros initial i w Hw; simpl; [ exact I | ].
  destruct (array r a w !! i) as [id | ] eqn:Hid; [ | exact Hw ].
  assert (Hlive : destroyed (rootState r id w) = false).
  { destruct Hw as (_ & _ & _ & Harr & _).
    apply list_elem_of_lookup_2 in Hid. unfold array in Hid. rewrite Harr in Hid.
    now apply attached_roots_alive in Hid. }
  rewrite Hlive. destruct (initial <=? i); [ now apply IH | ].
  now apply (keeps_bind a r (RootState_render rec r id)
               (forRoots rec fuel r a initial (S i))
               (keeps_RootState_render id) (IH initial (S i))).
Qed.

Lemma consistent_committed w :
  consistent a (this r w) -> consistent a (this r (committed r w)).
Proof.
  intros (H1 & H2 & H3 & H4 & H5). unfold committed. rewrite this_set_this.
  repeat split; assumption.
Qed.

Lemma keeps_doWhile fuel : keeps a r (doWhile rec fuel r a).
Proof.
  induction fuel as [ | fuel IH]; intros w Hw; simpl; [ exact I | ].
  pose proof (keeps_forRoots fuel (length (array r a w)) 0 w Hw) as Hpass.
  destruct (forRoots rec fuel r a _ 0 w) as [w1 | e w1 | ]; simpl in *; auto.
  fold (committed r w1).
  destruct (_ <? _); [ apply IH | ]; now apply consistent_committed.
Qed.

Lemma keeps_renderRoots fuel : keeps a r (_renderRoots rec fuel r).
Proof.
  intros w Hw. unfold _renderRoots.
  pose proof Hw as (Hp & _). rewrite Hp.
  pose proof (keeps_doWhile fuel w Hw) as Hloop.
  destruct (doWhile rec fuel r a w) as [w1 | e w1 | ]; simpl in *; auto.
  pose proof Hloop as (H1 & H2 & H3 & H4 & H5).
  rewrite H3. unfold removeDestroyed. cbn [rev fold_left].
  set (w2 := set_array r a _ _).
  assert (Hw2 : consistent a (this r w2)).
  { unfold w2, set_array, array. rewrite !this_set_this.
    repeat split; try assumption.
    cbn [arrays set_arrays set_removedRoots]. rewrite upd_eq. exact H4. }
  destruct (_ =? 0); [ now apply keeps_deregister | exact Hw2 ].
Qed.

Lemma keeps_renderRootsTransaction_body fuel :
  keeps a r (_renderRootsTransaction_body rec fuel r).
Proof.
  intros w Hw. unfold _renderRootsTransaction_body.
  destruct (_inRenderTransaction (this r w)); [ exact Hw | ].
  set (w1 := set_this r _ w).
  assert (Hw1 : consistent a (this r w1)).
  { unfold w1. rewrite this_set_this. destruct Hw as (H1 & H2 & H3 & H4 & H5).
    repeat split; assumption. }
  pose proof (keeps_renderRoots fuel w1 Hw1) as Hrun.
  destruct (_renderRoots rec fuel r w1) as [w2 | e w2 | ]; cbn [ends_in] in *;
    try exact I;
    rewrite this_set_this; destruct Hrun as (H1 & H2 & H3 & H4 & H5);
    repeat split; assumption.
Qed.

End Consistent.

Lemma keeps_renderRootsTransaction a r fuel :
  keeps a r (_renderRootsTransaction fuel r).
Proof.
  induction fuel as [ | fuel IH]; intros w Hw; simpl; [ exact I | ].
  now apply keeps_renderRootsTransaction_body.
Qed.

Lemma keeps_run_op a r fuel o :
  plain_op o = true -> keeps a r (run_op fuel r o).
Proof.
  destruct o; intros Hplain w Hw; simpl in *; try exact Hw; try discriminate.
  - apply keeps_appendDefinition; try assumption.
    apply keeps_renderRootsTransaction.
  - now apply keeps_cleanupRootFor.
  - unfold _revalidate. destruct (_isValid r w); [ exact Hw | ].
    now apply keeps_renderRootsTransaction.
Qed.

Lemma consistent_new debug limit now r :
  consistent 0 (this r (newWorld debug limit now)).
Proof. repeat split. Qed.


(** *** A render function that was replaced is never restored *)

Lemma failed_refl r w : failed_stay_failed r w w.
Proof. split; [ lia | ]. intros id _. split; auto. Qed.

Lemma failed_trans r w1 w2 w3 :
  failed_stay_failed r w1 w2 -> failed_stay_failed r w2 w3 ->
  failed_stay_failed r w1 w3.
Proof.
  intros [Hn1 H1] [Hn2 H2]. split; [ lia | ].
  intros id Hid. destruct (H1 id Hid) as [Ha Hb].
  destruct (H2 id ltac:(lia)) as [Hc Hd].
  split.
  - intros Hw. destruct (Ha Hw) as [Hw2 | Hw2]; auto.
  - auto.
Qed.

(** Writes that leave the root objects of [r] alone. *)
Lemma failed_same_roots r w w' :
  store (this r w') = store (this r w) ->
  nextRoot (this r w') = nextRoot (this r w) ->
  failed_stay_failed r w w'.
Proof.
  intros Hs Hn. split; [ lia | ]. intros id _. unfold rootState.
  rewrite Hs. split; auto.
Qed.

Lemma failed_step r w w1 res :
  failed_stay_failed r w w1 ->
  ends_in (failed_stay_failed r w1) res ->
  ends_in (failed_stay_failed r w) res.
Proof. destruct res; simpl; eauto using failed_trans. Qed.

Lemma failed_bind r w m k :
  ends_in (failed_stay_failed r w) m ->
  (forall w1, ends_in (failed_stay_failed r w1) (k w1)) ->
  ends_in (failed_stay_failed r w) (m >>= k).
Proof.
  intros Hm Hk. destruct m as [w1 | e w1 | ]; simpl in *; auto.
  eapply failed_step; [ exact Hm | apply Hk ].
Qed.

(** A write to one root object. *)
Lemma failed_set_rootState r id s w :
  (render (rootState r id w) = Warn -> render s = Warn \/ render s = NoRender) ->
  (render (rootState r id w) = NoRender -> render s = NoRender) ->
  failed_stay_failed r w (set_rootState r id s w).
Proof.
  intros Hw Hn. split.
  - unfold set_rootState. rewrite this_set_this. simpl. lia.
  - intros j _. destruct (Nat.eq_dec j id) as [-> | Hne].
    + rewrite rootState_set_rootState. auto.
    + rewrite rootState_set_rootState_ne by assumption. auto.
Qed.

Lemma failed_register r w : ends_in (failed_stay_failed r w) (register r w).
Proof.
  unfold register, assert. destruct (_ =? _)%Z; simpl;
    (apply failed_refl || now apply failed_same_roots).
Qed.

Lemma failed_deregister r w : ends_in (failed_stay_failed r w) (deregister r w).
Proof.
  unfold deregister, assert. destruct (negb _); simpl;
    (apply failed_refl || now apply failed_same_roots).
Qed.

Lemma failed_RootState_destroy r i w :
  ends_in (failed_stay_failed r w) (RootState_destroy r i w).
Proof.
  unfold RootState_destroy. destruct (destroyed _); simpl; [ apply failed_refl | ].
  assert (H : failed_stay_failed r w (set_rootState r i destroyedRoot w))
    by (apply failed_set_rootState; simpl; auto).
  destruct (result _); exact H.
Qed.

Lemma failed_set_array r a l w : failed_stay_failed r w (set_array r a l w).
Proof.
  apply failed_same_roots; unfold set_array; now rewrite this_set_this.
Qed.

Lemma failed_cleanupLoop r a view i : forall w,
  ends_in (failed_stay_failed r w) (cleanupLoop i r a view w).
Proof.
  induction i as [ | i IH]; intros w; simpl; [ apply failed_refl | ].
  destruct (array r a w !! i) as [id | ]; simpl; [ | apply failed_refl ].
  destruct (isFor _ view); [ | apply IH ].
  apply failed_bind; [ apply failed_RootState_destroy | ].
  intros w1. eapply failed_step; [ apply failed_set_array | apply IH ].
Qed.

Lemma failed_cleanupRootFor r view w :
  ends_in (failed_stay_failed r w) (cleanupRootFor r view w).
Proof.
  unfold cleanupRootFor. destruct (_destroyed _); simpl; [ apply failed_refl | ].
  apply failed_cleanupLoop.
Qed.

Lemma failed_destroyEach r l : forall w,
  ends_in (failed_stay_failed r w) (destroyEach l r w).
Proof.
  induction l as [ | i l IH]; intros w; simpl; [ apply failed_refl | ].
  apply failed_bind; [ apply failed_RootState_destroy | exact IH ].
Qed.

Lemma failed_set_this r x w :
  store x = store (this r w) ->
  nextRoot x = nextRoot (this r w) ->
  failed_stay_failed r w (set_this r x w).
Proof. intros Hs Hn. apply failed_same_roots; now rewrite this_set_this. Qed.

Lemma failed_clearAllRoots r w :
  ends_in (failed_stay_failed r w) (_clearAllRoots r w).
Proof.
  unfold _clearAllRoots.
  apply failed_bind; [ apply failed_destroyEach | ].
  intros w1.
  eapply failed_step;
    [ | destruct (negb _); [ apply failed_deregister | simpl; apply failed_refl ] ].
  now apply failed_set_this.
Qed.

Lemma failed_destroy r w : ends_in (failed_stay_failed r w) (destroy r w).
Proof.
  unfold destroy. destruct (_destroyed _); simpl; [ apply failed_refl | ].
  eapply failed_step; [ | apply failed_clearAllRoots ].
  now apply failed_set_this.
Qed.

Section Failed.

Variable rec : nat -> World -> Res.
Variable r : nat.
Hypothesis failed_rec : forall w, ends_in (failed_stay_failed r w) (rec r w).

Lemma failed_appendDefinition view first again w :
  ends_in (failed_stay_failed r w) (_appendDefinition rec r view first again w).
Proof.
  unfold _appendDefinition, _renderRoot. cbv zeta.
  set (w0 := set_this r _ w).
  assert (H0 : failed_stay_failed r w w0).
  { split.
    - unfold w0. rewrite this_set_this. simpl. lia.
    - intros id Hid. unfold w0, rootState. rewrite this_set_this. simpl.
      rewrite upd_ne by lia. auto. }
  eapply failed_step; [ exact H0 | ].
  eapply failed_step; [ apply failed_set_array | ].
  apply failed_bind; [ | exact failed_rec ].
  destruct (_ =? 1); [ apply failed_register | simpl; apply failed_refl ].
Qed.

Lemma failed_perform act w : ends_in (failed_stay_failed r w) (perform rec r act w).
Proof.
  destruct act; simpl; try apply failed_refl.
  - apply failed_appendDefinition.
  - apply failed_cleanupRootFor.
  - now apply failed_same_roots.
  - apply failed_destroy.
Qed.

Lemma failed_exec acts : forall w,
  ends_in (failed_stay_failed r w) (exec rec r acts w).
Proof.
  induction acts as [ | act acts IH]; intros w; simpl; [ apply failed_refl | ].
  apply failed_bind; [ apply failed_perform | exact IH ].
Qed.

Lemma failed_errorLoopTransaction id body w :
  ends_in (failed_stay_failed r w) (body w) ->
  ends_in (failed_stay_failed r w) (errorLoopTransaction r id body w).
Proof.
  unfold errorLoopTransaction.
  destruct (body w) as [w1 | e w1 | ]; simpl; auto.
  intros H1. destruct (DEBUG w1); simpl; auto.
  destruct (render (rootState r id w1)) eqn:Hfn; simpl; auto;
    (eapply failed_trans; [ exact H1 | ]);
    apply failed_set_rootState; simpl; auto; rewrite Hfn; discriminate.
Qed.

Lemma failed_RootState_render id w :
  ends_in (failed_stay_failed r w) (RootState_render rec r id w).
Proof.
  unfold RootState_render.
  destruct (render (rootState r id w)) as [first again | again | | ] eqn:Hfn;
    simpl; try apply failed_refl; try (now apply failed_same_roots).
  - apply failed_errorLoopTransaction.
    pose proof (failed_exec first (emit (EvRender r id) w)) as He.
    destruct (exec rec r first _) as [w1 | e w1 | ]; simpl in *; auto.
    destruct He as [Hn He]. split.
    + unfold set_rootState. rewrite this_set_this. simpl. exact Hn.
    + intros j Hj. destruct (Nat.eq_dec j id) as [-> | Hne].
      * rewrite Hfn. split; discriminate.
      * rewrite rootState_set_rootState_ne by assumption. now apply He.
  - apply failed_errorLoopTransaction.
    apply (failed_exec again (emit (EvRender r id) w)).
Qed.

Lemma failed_forRoots fuel : forall a initial i w,
  ends_in (failed_stay_failed r w) (forRoots rec fuel r a initial i w).
Proof.
  induction fuel as [ | fuel IH]; intros a initial i w; simpl; [ exact I | ].
  destruct (array r a w !! i) as [id | ]; simpl; [ | apply failed_refl ].
  destruct (destroyed _).
  - eapply failed_step; [ | apply IH ].
    now apply failed_set_this.
  - destruct (initial <=? i); [ apply IH | ].
    apply failed_bind; [ apply failed_RootState_render | intros; apply IH ].
Qed.

Lemma failed_doWhile fuel : forall a w,
  ends_in (failed_stay_failed r w) (doWhile rec fuel r a w).
Proof.
  induction fuel as [ | fuel IH]; intros a w; simpl; [ exact I | ].
  apply failed_bind; [ apply failed_forRoots | ].
  intros w1.
  eapply failed_step;
    [ | destruct (_ <? _); [ apply IH | simpl; apply failed_refl ] ].
  now apply failed_set_this.
Qed.

Lemma failed_renderRootsTransaction_body fuel w :
  ends_in (failed_stay_failed r w) (_renderRootsTransaction_body rec fuel r w).
Proof.
  unfold _renderRootsTransaction_body.
  destruct (_inRenderTransaction _); simpl; [ apply failed_refl | ].
  set (w1 := set_this r _ w).
  assert (H1 : failed_stay_failed r w w1)
    by (unfold w1; now apply failed_set_this).
  assert (Hrun : ends_in (failed_stay_failed r w1) (_renderRoots rec fuel r w1)).
  { unfold _renderRoots. apply failed_bind; [ apply failed_doWhile | ].
    intros w2.
    eapply failed_step;
      [ | destruct (_ =? 0); [ apply failed_deregister | simpl; apply failed_refl ] ].
    eapply failed_trans; [ | apply failed_set_array ].
    now apply failed_set_this. }
  destruct (_renderRoots rec fuel r w1) as [w2 | e w2 | ]; cbn [ends_in] in *;
    try exact I;
    (eapply failed_trans; [ exact H1 | ]);
    (eapply failed_trans; [ exact Hrun | ]);
    now apply failed_set_this.
Qed.

End Failed.

Lemma failed_renderRootsTransaction r fuel : forall w,
  ends_in (failed_stay_failed r w) (_renderRootsTransaction fuel r w).
Proof.
  induction fuel as [ | fuel IH]; intros w; simpl; [ exact I | ].
  now apply failed_renderRootsTransaction_body.
Qed.

Lemma failed_run_op r fuel o w :
  ends_in (failed_stay_failed r w) (run_op fuel r o w).
Proof.
  destruct o; simpl.
  - apply failed_appendDefinition. apply failed_renderRootsTransaction.
  - apply failed_cleanupRootFor.
  - now apply failed_same_roots.
  - unfold _revalidate. destruct (_isValid r w); simpl;
      [ apply failed_refl | apply failed_renderRootsTransaction ].
  - apply failed_destroy.
Qed.

Lemma failed_run r fuel ops : forall w w',
  run fuel r ops w = Some w' -> failed_stay_failed r w w'.
Proof.
  induction ops as [ | o ops IH]; intros w w' Hrun; simpl in Hrun.
  - injection Hrun as <-. apply failed_refl.
  - pose proof (failed_run_op r fuel o w) as Hstep.
    destruct (run_op fuel r o w) as [w1 | e w1 | ]; simpl in *; try discriminate;
      (eapply failed_trans; [ exact Hstep | now apply IH ]).
Qed.

(** ** Validity and revalidation *)

(** C4: [_isValid] is true exactly when the renderer is destroyed, or it has
    no roots, or the clock reports no change since [_lastRevision]; and
    [_revalidate] on a renderer whose clock is unchanged since
    [_lastRevision] returns at once, leaving the world, and so the log of
    renders, as it was. *)
Theorem isValid_iff_and_revalidate_short_circuits (fuel r : nat) (w : World) :
  (_isValid r w = true <->
     _destroyed (this r w) = true
     \/ roots_of r w = []
     \/ validateTag w (_lastRevision (this r w)) = true)
  /\ (validateTag w (_lastRevision (this r w)) = true ->
      _revalidate fuel r w = Ok w).
Proof.
  unfold _revalidate, _isValid, roots_of. split.
  - rewrite !orb_true_iff, Nat.eqb_eq. split.
    + intros [[H | H] | H]; auto.
      right; left. now destruct (array r _ w).
    + intros [H | [H | H]]; auto.
      left; right. now rewrite H.
  - intros ->. now rewrite !orb_true_r.
Qed.

Lemma isValid_iff_and_revalidate_short_circuits_witness :
  let w := world_of (_renderRootsTransaction 9 0 (oneRoot true [] [])) (newWorld true 10 5%Z) in
  renders 0 0 (log w) = 1 /\ _revalidate 9 0 w = Ok w.
Proof.
  split; [ reflexivity | ].
  apply (isValid_iff_and_revalidate_short_circuits 9 0). reflexivity.
Defined.

(** ** The transaction guard *)

(** C10: a transaction that starts (the guard was off) ends with the guard
    off, whether [_renderRoots] returned or threw; when it threw,
    [_lastRevision] is the current revision of the clock, so the renderer is
    valid and [_revalidate] does not run another transaction. *)
Theorem renderRootsTransaction_resets_guard (fuel r : nat) (w : World) :
  _inRenderTransaction (this r w) = false ->
  (forall w', _renderRootsTransaction fuel r w = Ok w' ->
     _inRenderTransaction (this r w') = false)
  /\ (forall e w', _renderRootsTransaction fuel r w = Err e w' ->
        _inRenderTransaction (this r w') = false
        /\ _lastRevision (this r w') = clock w'
        /\ _isValid r w' = true
        /\ forall fuel', _revalidate fuel' r w' = Ok w').
Proof.
  intros Hguard. destruct fuel as [ | fuel]; simpl.
  { split; intros; discriminate. }
  unfold _renderRootsTransaction_body. rewrite Hguard.
  destruct (_renderRoots _ fuel r _) as [w2 | e2 w2 | ]; split; intros;
    try discriminate.
  - injection H as <-. now rewrite this_set_this.
  - injection H as <- <-. rewrite this_set_this. simpl.
    assert (Hvalid : _isValid r
              (set_this r (set_inRenderTransaction
                 (set_lastRevision (this r w2) (valueForTag w2)) false) w2) = true).
    { unfold _isValid. rewrite this_set_this. simpl. unfold validateTag. simpl.
      unfold valueForTag. rewrite Z.leb_refl. apply orb_true_r. }
    repeat split; auto.
    intros fuel'. unfold _revalidate. now rewrite Hvalid.
Qed.

Lemma renderRootsTransaction_resets_guard_witness :
  let w := oneRoot true [Throw] [] in
  let w' := world_of (_renderRootsTransaction 9 0 w) w in
  _renderRootsTransaction 9 0 w = Err Thrown w'
  /\ _inRenderTransaction (this 0 w') = false
  /\ _lastRevision (this 0 w') = clock w'
  /\ _isValid 0 w' = true.
Proof.
  intros w w'.
  assert (H : _renderRootsTransaction 9 0 w = Err Thrown w') by reflexivity.
  split; [ exact H | ].
  destruct (renderRootsTransaction_resets_guard 9 0 w eq_refl) as [_ Herr].
  destruct (Herr Thrown w' H) as (H1 & H2 & H3 & _). auto.
Defined.

(** ** The sweep at the end of a run loop *)

Lemma loopEnd_from_valid pre rest w :
  (forall p, p ∈ pre -> _isValid p w = true) ->
  loopEnd_from (pre ++ rest) w = loopEnd_from rest w.
Proof.
  induction pre as [ | p pre IH]; intros Hvalid; simpl; [ reflexivity | ].
  rewrite (Hvalid p) by left. simpl. apply IH.
  intros q Hq. apply Hvalid. now right.
Qed.

Lemma isValid_false r w :
  _isValid r w = false ->
  _destroyed (this r w) = false /\ roots_of r w <> []
  /\ validateTag w (_lastRevision (this r w)) = false.
Proof.
  unfold _isValid, roots_of. rewrite !orb_false_iff, Nat.eqb_neq.
  intros [[H1 H2] H3]. repeat split; auto.
  intros H. now rewrite H in H2.
Qed.

(** C3: at a sweep, let [r] be the first registered renderer that is not
    valid. If [loops] exceeds the limit, [r] is destroyed (every root it held
    is destroyed, it holds no root and it leaves the registry), [loops] is
    reset, the call throws the infinite invalidation error, and no other
    renderer is touched; otherwise [loops] is incremented, one more run loop
    is requested with [backburner.join] and nothing else changes. *)
Theorem loopEnd_first_invalid_renderer (w : World) (pre post : list nat) (r : nat) :
  renderers w = pre ++ r :: post ->
  NoDup (renderers w) ->
  (forall p, p ∈ pre -> _isValid p w = true) ->
  _isValid r w = false ->
  NoDup (roots_of r w) ->
  (forall i, i ∈ roots_of r w -> destroyed (rootState r i w) = false) ->
  (_RERENDER_LOOP_LIMIT w < loops w ->
     exists w' evs,
       loopEnd w = Err InfiniteInvalidation w'
       /\ _destroyed (this r w') = true
       /\ (forall i, i ∈ roots_of r w -> destroyed (rootState r i w') = true)
       /\ roots_of r w' = []
       /\ renderers w' = pre ++ post
       /\ (r ∉ renderers w')
       /\ loops w' = 0
       /\ (forall q, q <> r -> this q w' = this q w)
       /\ renderSettledDeferred w' = renderSettledDeferred w
       /\ log w' = log w ++ evs /\ Forall is_destroy_result evs)
  /\ (loops w <= _RERENDER_LOOP_LIMIT w ->
      loopEnd w = Ok (emit EvJoinK (set_loops w (S (loops w))))).
Proof.
  intros Hreg Hnodup Hvalid Hinvalid Hdup Hlive.
  assert (Hpre : (r ∉ pre) /\ (r ∉ post)).
  { rewrite Hreg in Hnodup. apply NoDup_app in Hnodup as (_ & H1 & H2).
    apply NoDup_cons in H2 as [H2 _]. split; [ | exact H2 ].
    intros Hin. apply (H1 r Hin). left. }
  destruct Hpre as [Hpre Hpost].
  unfold loopEnd. rewrite Hreg, loopEnd_from_valid by assumption.
  simpl. rewrite Hinvalid. simpl.
  destruct (isValid_false r w Hinvalid) as (Hnd & Hne & _).
  split; intros Hloops.
  - replace (_RERENDER_LOOP_LIMIT w <? loops w) with true
      by (symmetry; apply Nat.ltb_lt; lia).
    destruct (destroy_live r (set_loops w 0) pre post)
      as (w' & evs & -> & H1 & H2 & _ & H3 & H4 & H5 & H6 & H7 & H8 & H9);
      try assumption.
    exists w', evs. simpl. split; [ reflexivity | ].
    split; [ exact H1 | ].
    split; [ intros i Hi; now rewrite (H3 i Hi) | ].
    split; [ exact H2 | ].
    split; [ exact H4 | ].
    split; [ rewrite H4; intros Hin; apply elem_of_app in Hin as [ | ]; contradiction | ].
    split; [ exact H5 | ].
    repeat split; assumption.
  - replace (_RERENDER_LOOP_LIMIT w <? loops w) with false
      by (symmetry; apply Nat.ltb_ge; lia).
    reflexivity.
Qed.

Lemma loopEnd_first_invalid_renderer_witness :
  exists w',
    loopEnd (twoRenderers 11) = Err InfiniteInvalidation w'
    /\ _destroyed (this 1 w') = true
    /\ roots_of 1 w' = []
    /\ renderers w' = [0]
    /\ loops w' = 0.
Proof.
  destruct (loopEnd_first_invalid_renderer (twoRenderers 11) [0] [] 1)
    as [Hover _]; try reflexivity.
  - apply (bool_decide_unpack _). vm_compute. exact I.
  - intros p Hp. apply list_elem_of_singleton in Hp as ->. reflexivity.
  - apply (bool_decide_unpack _). vm_compute. exact I.
  - intros i Hi. change (roots_of 1 (twoRenderers 11)) with [0] in Hi.
    apply list_elem_of_singleton in Hi as ->. reflexivity.
  - destruct Hover as (w' & evs & H1 & H2 & _ & H3 & H4 & _ & H5 & _).
    + vm_compute. lia.
    + exists w'. auto.
Defined.

(** ** The settle signal *)

Lemma settle_untouched_refl w : settle_untouched w w.
Proof.
  repeat split. exists []. split; [ now rewrite app_nil_r | constructor ].
Qed.

Lemma settle_untouched_trans a b c :
  settle_untouched a b -> settle_untouched b c -> settle_untouched a c.
Proof.
  intros (H1 & H2 & l1 & H3 & H4) (H5 & H6 & l2 & H7 & H8).
  repeat split; try congruence.
  exists (l1 ++ l2). split; [ rewrite H7, H3; now rewrite app_assoc | ].
  now apply Forall_app.
Qed.

Lemma settle_untouched_emit e w :
  is_resolve e = false -> settle_untouched w (emit e w).
Proof.
  intros He. repeat split. exists [e]. split; [ reflexivity | ].
  now repeat constructor.
Qed.

Lemma settle_untouched_quiet w w' :
  renderSettledDeferred w' = renderSettledDeferred w ->
  nextDeferred w' = nextDeferred w ->
  log w' = log w ->
  settle_untouched w w'.
Proof.
  intros H1 H2 H3. repeat split; auto.
  exists []. split; [ now rewrite app_nil_r | constructor ].
Qed.

Lemma settle_untouched_destroy r w : ends_in (settle_untouched w) (destroy r w).
Proof.
  apply frame_destroy;
    auto using settle_untouched_refl, settle_untouched_emit;
    try (intros; now apply settle_untouched_quiet).
  exact settle_untouched_trans.
Qed.

Lemma settle_untouched_transaction fuel r w :
  ends_in (settle_untouched w) (_renderRootsTransaction fuel r w).
Proof.
  apply frame_renderRootsTransaction;
    auto using settle_untouched_refl, settle_untouched_emit;
    try (intros; now apply settle_untouched_quiet).
  exact settle_untouched_trans.
Qed.

Lemma settle_untouched_appendTo fuel r view first again w :
  ends_in (settle_untouched w) (appendTo fuel r view first again w).
Proof.
  apply frame_appendTo;
    auto using settle_untouched_refl, settle_untouched_emit;
    try (intros; now apply settle_untouched_quiet).
  exact settle_untouched_trans.
Qed.

Lemma settle_untouched_remove r view w :
  ends_in (settle_untouched w) (remove r view w).
Proof.
  apply frame_remove;
    auto using settle_untouched_refl, settle_untouched_emit;
    try (intros; now apply settle_untouched_quiet).
  exact settle_untouched_trans.
Qed.

Lemma loopEnd_from_invalid rs : forall w,
  (exists r, r ∈ rs /\ _isValid r w = false) ->
  ends_in (settle_untouched w) (loopEnd_from rs w).
Proof.
  induction rs as [ | p rs IH]; intros w (r & Hin & Hr).
  - now apply elem_of_nil in Hin.
  - simpl. destruct (_isValid p w) eqn:Hp; simpl.
    + apply IH. exists r. split; [ | exact Hr ].
      apply elem_of_cons in Hin as [-> | Hin]; [ congruence | exact Hin ].
    + destruct (_ <? _).
      * pose proof (settle_untouched_destroy p (set_loops w 0)) as H.
        destruct (destroy p (set_loops w 0)) as [w1 | e w1 | ]; simpl in *;
          try exact H; exact I.
      * simpl. repeat split. exists [EvJoinK]. now repeat constructor.
Qed.

Lemma loopEnd_from_all_valid rs : forall w,
  (forall r, r ∈ rs -> _isValid r w = true) ->
  loopEnd_from rs w = Ok (resolveRenderPromise (set_loops w 0)).
Proof.
  induction rs as [ | p rs IH]; intros w Hvalid; simpl; [ reflexivity | ].
  rewrite (Hvalid p) by left. simpl. apply IH.
  intros r Hr. apply Hvalid. now right.
Qed.

(** C6: there is one variable for the settle signal. [renderSettled] returns
    the outstanding signal and changes nothing when there is one; otherwise
    it creates one, schedules [K] exactly when backburner has no current run
    loop, and further calls return the same signal. [loopEnd] leaves the
    signal untouched and unresolved when a registered renderer is not valid,
    and resolves and clears it when every registered renderer is valid.
    Attaching, removing, destroying and revalidating never resolve it. *)
Theorem settle_signal (w : World) :
  (forall d, renderSettledDeferred w = Some d -> renderSettled w = (d, w))
  /\ (renderSettledDeferred w = None ->
      let d := fst (renderSettled w) in
      let w' := snd (renderSettled w) in
      renderSettledDeferred w' = Some d
      /\ log w' = log w ++ (if currentRunLoop w then [] else [EvScheduleK])
      /\ renderSettled w' = (d, w'))
  /\ ((exists r, r ∈ renderers w /\ _isValid r w = false) ->
      ends_in (settle_untouched w) (loopEnd w))
  /\ ((forall r, r ∈ renderers w -> _isValid r w = true) ->
      exists w',
        loopEnd w = Ok w'
        /\ renderSettledDeferred w' = None
        /\ loops w' = 0
        /\ log w' = log w ++ match renderSettledDeferred w with
                             | Some d => [EvJoinResolve d]
                             | None => []
                             end)
  /\ (forall fuel r view first again,
        ends_in (settle_untouched w) (appendTo fuel r view first again w)
        /\ ends_in (settle_untouched w) (remove r view w)
        /\ ends_in (settle_untouched w) (destroy r w)
        /\ ends_in (settle_untouched w) (_revalidate fuel r w)).
Proof.
  split; [ | split; [ | split; [ | split ] ] ].
  - intros d Hd. unfold renderSettled. now rewrite Hd.
  - intros Hnone. unfold renderSettled. rewrite Hnone. simpl.
    destruct (currentRunLoop w); simpl; repeat split.
    now rewrite app_nil_r.
  - apply loopEnd_from_invalid.
  - intros Hvalid. unfold loopEnd. rewrite loopEnd_from_all_valid by assumption.
    eexists. split; [ reflexivity | ].
    unfold resolveRenderPromise. simpl.
    destruct (renderSettledDeferred w) eqn:Hd; simpl; repeat split;
      try assumption.
    now rewrite app_nil_r.
  - intros fuel r view first again.
    split; [ apply settle_untouched_appendTo | ].
    split; [ apply settle_untouched_remove | ].
    split; [ apply settle_untouched_destroy | ].
    unfold _revalidate. destruct (_isValid r w).
    + apply settle_untouched_refl.
    + apply settle_untouched_transaction.
Qed.

Lemma settle_signal_witness :
  renderSettled settling = (0, settling)
  /\ exists w',
       loopEnd settling = Ok w'
       /\ renderSettledDeferred w' = None
       /\ log w' = log settling ++ [EvJoinResolve 0].
Proof.
  destruct (settle_signal settling) as (Hsame & _ & _ & Hall & _).
  split; [ apply Hsame; reflexivity | ].
  destruct Hall as (w' & H1 & H2 & _ & H3).
  - intros r Hr. change (renderers settling) with [0] in Hr.
    apply list_elem_of_singleton in Hr as ->. reflexivity.
  - exists w'. auto.
Defined.

(** ** A render that throws *)

Lemma DEBUG_constant fuel r w :
  ends_in (fun w' => DEBUG w' = DEBUG w) (_renderRootsTransaction fuel r w).
Proof.
  apply (frame_renderRootsTransaction (fun a b => DEBUG b = DEBUG a));
    try reflexivity.
  intros a b c. congruence.
Qed.

Lemma DEBUG_exec fuel r acts w :
  ends_in (fun w' => DEBUG w' = DEBUG w) (exec (_renderRootsTransaction fuel) r acts w).
Proof.
  apply (frame_exec (fun a b => DEBUG b = DEBUG a)); try reflexivity.
  - intros a b c. congruence.
  - intros w0. apply DEBUG_constant.
Qed.

Lemma render_Warn rec r id w :
  render (rootState r id w) = Warn ->
  RootState_render rec r id w = Ok (emit (EvWarn r id) w).
Proof. intros H. unfold RootState_render. now rewrite H. Qed.

Lemma render_times_Warn rec n : forall r id w,
  render (rootState r id w) = Warn ->
  exists w',
    render_times rec n r id w = Ok w'
    /\ log w' = log w ++ repeat (EvWarn r id) n
    /\ render (rootState r id w') = Warn
    /\ only_roots_changed r w w'
    /\ forall i, rootState r i w' = rootState r i w.
Proof.
  induction n as [ | n IH]; intros r id w Hwarn; simpl.
  - exists w. split; [ reflexivity | ]. rewrite app_nil_r.
    repeat split; auto.
  - rewrite render_Warn by assumption. simpl.
    destruct (IH r id (emit (EvWarn r id) w) Hwarn) as (w' & -> & Hlog & Hw & Hc & Hs).
    exists w'. split; [ reflexivity | ].
    split; [ rewrite Hlog; simpl; now rewrite <- app_assoc | ].
    split; [ exact Hw | ].
    split; [ exact Hc | exact Hs ].
Qed.

(** C8, as the code has it: with [DEBUG] on, a call of a root's render
    function that throws leaves the root with the function that only warns
    (unless the failing render has destroyed the root, whose [render] is then
    [undefined]). From then on a call of the root's render function returns
    without an error, renders nothing and logs one warning, however often it
    is called; and whatever is attached, removed, written, revalidated or
    destroyed afterwards, the render function of the root stays the one that
    warns until the root is destroyed. *)
Theorem failed_render_is_replaced_in_DEBUG
    (fuel r id : nat) (w w1 : World) (e : error) :
  DEBUG w = true ->
  id < nextRoot (this r w) ->
  RootState_render (_renderRootsTransaction fuel) r id w = Err e w1 ->
  render (rootState r id w1) <> NoRender ->
  render (rootState r id w1) = Warn
  /\ (forall rec n, exists w2,
        render_times rec n r id w1 = Ok w2
        /\ log w2 = log w1 ++ repeat (EvWarn r id) n
        /\ render (rootState r id w2) = Warn)
  /\ (forall fuel' ops w2,
        run fuel' r ops w1 = Some w2 ->
        (render (rootState r id w2) = Warn \/ render (rootState r id w2) = NoRender)
        /\ forall rec,
             render (rootState r id w2) = Warn ->
             RootState_render rec r id w2 = Ok (emit (EvWarn r id) w2)).
Proof.
  intros Hdebug Hid Hrun Hdefined.
  assert (Hwarn : render (rootState r id w1) = Warn).
  { unfold RootState_render in Hrun.
    destruct (render (rootState r id w)) as [first again | again | | ] eqn:Hfn;
      unfold errorLoopTransaction in Hrun;
      [ | | discriminate | injection Hrun as <- <-; now rewrite Hfn in Hdefined ].
    - pose proof (DEBUG_exec fuel r first (emit (EvRender r id) w)) as Hd.
      destruct (exec _ r first _) as [w2 | e2 w2 | ]; simpl in *; try discriminate.
      rewrite Hd, Hdebug in Hrun.
      destruct (render (rootState r id w2)) eqn:Hr; injection Hrun as <- <-;
        try (now rewrite rootState_set_rootState).
      now rewrite Hr in Hdefined.
    - pose proof (DEBUG_exec fuel r again (emit (EvRender r id) w)) as Hd.
      destruct (exec _ r again _) as [w2 | e2 w2 | ]; simpl in *; try discriminate.
      rewrite Hd, Hdebug in Hrun.
      destruct (render (rootState r id w2)) eqn:Hr; injection Hrun as <- <-;
        try (now rewrite rootState_set_rootState).
      now rewrite Hr in Hdefined. }
  assert (Hid1 : id < nextRoot (this r w1)).
  { pose proof (failed_RootState_render (_renderRootsTransaction fuel) r
                  (failed_renderRootsTransaction r fuel) id w) as Hf.
    rewrite Hrun in Hf. destruct Hf as [Hn _]. lia. }
  split; [ exact Hwarn | ]. split.
  - intros rec n.
    destruct (render_times_Warn rec n r id w1 Hwarn) as (w2 & H1 & H2 & H3 & _).
    exists w2. auto.
  - intros fuel' ops w2 Hops.
    destruct (failed_run r fuel' ops w1 w2 Hops) as [_ Hstay].
    split; [ now apply (Hstay id Hid1) | ].
    intros rec. apply render_Warn.
Qed.

Lemma failed_render_is_replaced_in_DEBUG_witness :
  RootState_render (_renderRootsTransaction 8) 0 0 (oneRoot true [Throw] [])
    = Err Thrown renderFailed
  /\ render (rootState 0 0 renderFailed) = Warn
  /\ exists w2,
       render_times (_renderRootsTransaction 8) 3 0 0 renderFailed = Ok w2
       /\ log w2 = log renderFailed ++ [EvWarn 0 0; EvWarn 0 0; EvWarn 0 0].
Proof.
  split; [ reflexivity | ].
  destruct (failed_render_is_replaced_in_DEBUG 8 0 0
              (oneRoot true [Throw] []) renderFailed Thrown)
    as (Hwarn & Hlater & _); try reflexivity.
  - vm_compute. lia.
  - vm_compute. discriminate.
  - split; [ exact Hwarn | ].
    destruct (Hlater (_renderRootsTransaction 8) 3) as (w2 & H1 & H2 & _).
    exists w2. auto.
Defined.

(** C8, as the claim states it, fails when [DEBUG] is off:
    [errorLoopTransaction] returns [fn] itself, and the root that threw in
    its first render renders and throws again when the renderer
    revalidates. *)
Lemma failed_render_throws_again_without_DEBUG :
  DEBUG failedOnce = false
  /\ renders 0 0 (log failedOnce) = 1
  /\ exists w',
       _revalidate 9 0 failedOnce = Err Thrown w'
       /\ renders 0 0 (log w') = 2
       /\ log w' = [EvRender 0 0; EvRender 0 0].
Proof.
  split; [ reflexivity | ]. split; [ reflexivity | ].
  eexists. split; [ vm_compute; reflexivity | ].
  split; reflexivity.
Qed.

(** ** The registry and the roots *)

(** [cleanupRootFor] never touches the registry, whatever it removes. *)
Lemma remove_keeps_registry r view w :
  ends_in (fun w' => renderers w' = renderers w) (remove r view w).
Proof.
  apply (frame_remove (fun a b => renderers b = renderers a)); try reflexivity.
  intros a b c. congruence.
Qed.

(** C5, evaluated where the code departs from it: after the only root of a
    renderer has been attached and removed, the renderer holds no root and
    is still in the registry; attaching the next root then fails in
    [register], on the assertion that a renderer is not registered twice,
    before anything is rendered. *)
Theorem renderer_stays_registered_after_last_root_removed :
  roots_of 0 lastRootRemoved = []
  /\ renderers lastRootRemoved = [0]
  /\ exists w',
       appendTo 9 0 101 [] [] lastRootRemoved
         = Err (AssertionFailed "Cannot register the same renderer twice") w'
       /\ renders 0 1 (log w') = 0.
Proof.
  split; [ reflexivity | ]. split; [ reflexivity | ].
  eexists. split; [ vm_compute; reflexivity | reflexivity ].
Qed.

(** Runs of attach and detach keep the renderer consistent. *)
Lemma consistent_run (fuel r a : nat) (ops : list op) : forall w w',
  consistent a (this r w) ->
  forallb plain_op ops = true ->
  run fuel r ops w = Some w' ->
  consistent a (this r w').
Proof.
  induction ops as [ | o ops IH]; intros w w' Hw Hplain Hrun; simpl in *.
  - now injection Hrun as <-.
  - apply andb_true_iff in Hplain as [Ho Hops].
    pose proof (keeps_run_op a r fuel o Ho w Hw) as Hstep.
    destruct (run_op fuel r o w) as [w1 | e w1 | ]; simpl in *;
      try discriminate; now apply (IH w1 w').
Qed.



(** ** Attaching roots *)

Lemma emits_nil w : emits [] w = w.
Proof. destruct w. unfold emits. simpl. now rewrite app_nil_r. Qed.

Lemma emits_emit e es w : emits es (emit e w) = emits (e :: es) w.
Proof. unfold emits, emit. simpl. now rewrite <- app_assoc. Qed.


Lemma emits_emits es1 es2 w : emits es2 (emits es1 w) = emits (es1 ++ es2) w.
Proof. unfold emits. simpl. now rewrite <- app_assoc. Qed.

Lemma render_quiet rec r id w :
  quiet (rootState r id w) ->
  RootState_render rec r id w = Ok (emit (EvRender r id) w).
Proof.
  intros [_ Hfn]. unfold RootState_render. rewrite Hfn. reflexivity.
Qed.

(** A pass over a stretch [l] of quiet roots below [initialRootsLength]
    renders each of them once, in order, and continues behind them. *)
Lemma forRoots_quiet rec r a initial l : forall pre post w fuel,
  array r a w = pre ++ l ++ post ->
  length pre + length l <= initial ->
  (forall id, id ∈ l -> quiet (rootState r id w)) ->
  forRoots rec (length l + fuel) r a initial (length pre) w
  = forRoots rec fuel r a initial (length pre + length l)
      (emits (map (EvRender r) l) w).
Proof.
  induction l as [ | id l IH]; intros pre post w fuel Harr Hlen Hquiet.
  - simpl. now rewrite Nat.add_0_r, emits_nil.
  - simpl. rewrite Harr.
    change (pre ++ (id :: l) ++ post) with (pre ++ id :: (l ++ post)).
    rewrite list_lookup_middle by reflexivity.
    destruct (Hquiet id) as [Hlive Hfn]; [ left | ].
    rewrite Hlive.
    replace (initial <=? length pre) with false
      by (symmetry; apply Nat.leb_gt; simpl in Hlen; lia).
    rewrite render_quiet by (split; assumption). simpl.
    replace (S (length pre)) with (length (pre ++ [id]))
      by (rewrite length_app; simpl; lia).
    rewrite (IH (pre ++ [id]) post).
    + rewrite emits_emit. f_equal. rewrite length_app. simpl. lia.
    + rewrite <- app_assoc. exact Harr.
    + rewrite length_app. simpl in *. lia.
    + intros j Hj. apply Hquiet. now right.
Qed.





Lemma doWhile_last_pass rec fuel r a w w1 :
  forRoots rec fuel r a (length (array r a w)) 0 w = Ok w1 ->
  length (array r a w1) <= length (array r a w) ->
  doWhile rec (S fuel) r a w = Ok (committed r w1).
Proof.
  intros Hpass Hlen. cbn [doWhile]. rewrite Hpass. cbn [bind].
  fold (committed r w1).
  replace (array r a (committed r w1)) with (array r a w1)
    by (unfold committed; now norm).
  now replace (length (array r a w) <? length (array r a w1)) with false
    by (symmetry; apply Nat.ltb_ge; lia).
Qed.


Lemma transaction_completes rec fuel r w w2 :
  _inRenderTransaction (this r w) = false ->
  doWhile rec fuel r (_roots (this r w))
    (set_this r (set_inRenderTransaction (this r w) true) w) = Ok w2 ->
  _removedRoots (this r w2) = [] ->
  _roots (this r w2) = _roots (this r w) ->
  array r (_roots (this r w)) w2 <> [] ->
  _renderRootsTransaction_body rec fuel r w
  = Ok (finish r (_roots (this r w)) w2).
Proof.
  intros Hguard Hloop Hremoved Hptr Hne.
  unfold _renderRootsTransaction_body. rewrite Hguard.
  unfold _renderRoots. rewrite this_set_this.
  cbn [_roots set_inRenderTransaction]. rewrite Hloop. cbn [bind].
  rewrite Hremoved. unfold removeDestroyed. cbn [rev fold_left].
  set (w3 := set_array r _ _ _).
  assert (H3 : array r (_roots (this r w3)) w3 = array r (_roots (this r w)) w2).
  { unfold w3. norm. now rewrite Hptr, upd_eq. }
  rewrite H3.
  destruct (array r (_roots (this r w)) w2) eqn:Harr; [ congruence | ].
  unfold finish. rewrite Harr. reflexivity.
Qed.

Lemma renderRootsTransaction_S fuel r w :
  _renderRootsTransaction (S fuel) r w
  = _renderRootsTransaction_body (_renderRootsTransaction fuel) fuel r w.
Proof. reflexivity. Qed.







(** ** Render functions that attach views, to any depth *)







Section AttachTrees.

Variable rec : nat -> World -> Res.
Variables r a : nat.

(** The call of [_renderRootsTransaction] that [_renderRoot] makes while a
    transaction runs returns at once. *)
Hypothesis rec_in_progress : forall w,
  _inRenderTransaction (this r w) = true -> rec r w = Ok w.


Variables n total : nat.
Variable l : list nat.
Variable log0 : list event.










End AttachTrees.




(** ** The resolver *)

Section ResolverProperties.
Import Resolver.

(** The own properties of [BUILTINS_HELPERS], as the source lists them. *)
Lemma BUILTINS_HELPERS_table (name : string) (helper : builtin) :
  BUILTINS_HELPERS !! name = Some helper
  <-> (name, helper)
      ∈ [ ("if", inlineIf); ("action", action_helper); ("array", array_helper);
           ("concat", concat); ("fn", fn); ("get", get); ("hash", hash);
           ("log", log_helper); ("mut", mut); ("query-params", queryParams);
           ("readonly", readonly); ("unbound", unbound); ("unless", inlineUnless);
           ("-hash", hash); ("-each-in", eachIn);
           ("-normalize-class", normalizeClassHelper);
           ("-track-array", trackArray);
           ("-get-dynamic-var", getDynamicVarHelper); ("-mount", mountHelper);
           ("-outlet", outletHelper);
           ("-assert-implicit-component-helper-argument", componentAssertionHelper);
           ("-in-el-null", inElementNullCheckHelper) ]%string.
Proof.
  unfold BUILTINS_HELPERS. symmetry. apply elem_of_list_to_map.
  apply (bool_decide_unpack _). vm_compute. reflexivity.
Qed.

(** C9, as the code has it. [_lookupHelper] reads [this.builtInHelpers[name]]
    without asking whether the property is the object's own. It raises
    exactly when the owner has a registration for [helper:<name>] and the
    name is one of the built-in helpers or a member that the object of the
    built-ins inherits from [Object.prototype], such as [toString], which
    is no built-in helper; the message names the helper between quotes and
    the resolver is unchanged. Without a registration a built-in is
    returned, whatever the owner would resolve; and for an inherited name
    the inherited member is returned as the helper, the owner is not
    asked. *)
Theorem lookupHelper_builtin_precedence
    (host : Host) (name : string) (owner : Owner) (s : ResolverImpl) :
  let table :=
    [ ("if", inlineIf); ("action", action_helper); ("array", array_helper);
      ("concat", concat); ("fn", fn); ("get", get); ("hash", hash);
      ("log", log_helper); ("mut", mut); ("query-params", queryParams);
      ("readonly", readonly); ("unbound", unbound); ("unless", inlineUnless);
      ("-hash", hash); ("-each-in", eachIn);
      ("-normalize-class", normalizeClassHelper);
      ("-track-array", trackArray);
      ("-get-dynamic-var", getDynamicVarHelper); ("-mount", mountHelper);
      ("-outlet", outletHelper);
      ("-assert-implicit-component-helper-argument", componentAssertionHelper);
      ("-in-el-null", inElementNullCheckHelper) ]%string in
  let inherited :=
    [ "constructor"; "hasOwnProperty"; "isPrototypeOf"; "propertyIsEnumerable";
      "toLocaleString"; "toString"; "valueOf"; "__proto__"; "__defineGetter__";
      "__defineSetter__"; "__lookupGetter__"; "__lookupSetter__" ]%string in
  let registered := hasRegistration owner (String.append "helper:" name) in
  ((exists msg s', _lookupHelper host name owner s = Raised msg s')
   <-> ((exists helper, (name, helper) ∈ table) \/ name ∈ inherited)
       /\ registered = true)
  /\ (forall msg s',
        _lookupHelper host name owner s = Raised msg s' ->
        msg = String.append "You attempted to overwrite the built-in helper "
                (String.append (quoted name)
                   " which is not allowed. Please rename the helper.")
        /\ s' = s)
  /\ (forall helper,
        (name, helper) ∈ table ->
        registered = false ->
        _lookupHelper host name owner s = Returned (Some (BuiltIn helper)) s)
  /\ (name ∈ inherited ->
      registered = false ->
      _lookupHelper host name owner s = Returned (Some (InheritedMember name)) s).
Proof.
  intros table inherited registered.
  pose proof (BUILTINS_HELPERS_table name) as Htab. fold table in Htab.
  assert (Hdisjoint : name ∈ inherited -> BUILTINS_HELPERS !! name = None).
  { intros Hin. destruct (BUILTINS_HELPERS !! name) as [h | ] eqn:Hb; [ | reflexivity ].
    assert (Hb' : name ∈ table.*1).
    { apply list_elem_of_fmap. exists (name, h). split; [ reflexivity | ].
      now apply Htab. }
    exfalso. revert Hb'.
    unfold inherited in Hin.
    repeat (apply elem_of_cons in Hin as [-> | Hin];
            [ apply (bool_decide_unpack _); vm_compute; reflexivity | ]).
    now apply elem_of_nil in Hin. }
  assert (Hraise : forall msg s',
            _lookupHelper host name owner s = Raised msg s' ->
            msg = overwrite_message name /\ s' = s
            /\ is_Some (builtInHelpers name) /\ registered = true).
  { intros msg s'. unfold _lookupHelper. fold registered.
    destruct (bool_decide (is_Some (builtInHelpers name))) eqn:Hfound.
    - destruct registered; cbn [andb].
      + intros [= <- <-]. apply bool_decide_eq_true in Hfound. auto.
      + apply bool_decide_eq_true in Hfound as [h ->]. discriminate.
    - cbn [andb]. apply bool_decide_eq_false in Hfound.
      destruct (builtInHelpers name) as [h | ]; [ contradiction Hfound; eauto | ].
      destruct (factoryFor owner _) as [f | ]; [ | discriminate ].
      destruct (class f) as [c | ]; [ | discriminate ].
      destruct (isFunction host c && isClassicHelper host c); discriminate. }
  assert (Hfound : is_Some (builtInHelpers name)
                   <-> (exists helper, (name, helper) ∈ table) \/ name ∈ inherited).
  { unfold builtInHelpers.
    destruct (BUILTINS_HELPERS !! name) as [h | ] eqn:Hb.
    - split; [ intros _; left; exists h; now apply Htab | eauto ].
    - change Object_prototype with inherited.
      destruct (bool_decide (name ∈ inherited)) eqn:Hin.
      + apply bool_decide_eq_true in Hin. split; eauto.
      + apply bool_decide_eq_false in Hin. split.
        * intros [x Hx]. discriminate.
        * intros [[h Hh] | Hi]; [ | contradiction ].
          apply Htab in Hh. discriminate. }
  split; [ | split; [ | split ] ].
  - split.
    + intros (msg & s' & H). apply Hraise in H as (_ & _ & Hs & Hr).
      split; [ now apply Hfound | exact Hr ].
    + intros [Hs Hr]. apply Hfound in Hs.
      unfold _lookupHelper. fold registered.
      rewrite bool_decide_eq_true_2, Hr by assumption. cbn [andb]. eauto.
  - intros msg s' H. apply Hraise in H as (-> & -> & _). split; reflexivity.
  - intros helper Hin Hr. apply Htab in Hin.
    unfold _lookupHelper, builtInHelpers. fold registered.
    rewrite Hin, Hr, andb_false_r. reflexivity.
  - intros Hin Hr.
    unfold _lookupHelper, builtInHelpers. fold registered.
    rewrite (Hdisjoint Hin), Hr, andb_false_r.
    change Object_prototype with inherited.
    now rewrite bool_decide_eq_true_2.
Qed.

Lemma lookupHelper_builtin_precedence_witness :
  (exists msg,
     _lookupHelper LookupExamples.host "toString" LookupExamples.owner newResolver
     = Raised msg newResolver)
  /\ _lookupHelper ResolverExamples.host "toString" ResolverExamples.owner newResolver
     = Returned (Some (InheritedMember "toString")) newResolver
  /\ _lookupHelper ResolverExamples.host "concat" ResolverExamples.owner newResolver
     = Returned (Some (BuiltIn concat)) newResolver
  /\ exists msg s',
       _lookupHelper ResolverExamples.host "if" ResolverExamples.owner newResolver
       = Raised msg s'.
Proof.
  destruct (lookupHelper_builtin_precedence LookupExamples.host "toString"
              LookupExamples.owner newResolver) as (H1 & H1' & _).
  destruct (lookupHelper_builtin_precedence ResolverExamples.host "toString"
              ResolverExamples.owner newResolver) as (_ & _ & _ & H2).
  destruct (lookupHelper_builtin_precedence ResolverExamples.host "concat"
              ResolverExamples.owner newResolver) as (_ & _ & H3 & _).
  destruct (lookupHelper_builtin_precedence ResolverExamples.host "if"
              ResolverExamples.owner newResolver) as (H4 & _).
  split; [ | split; [ | split ] ].
  - destruct (proj2 H1) as (msg & s' & H).
    + split; [ right; apply (bool_decide_unpack _); vm_compute; reflexivity
             | reflexivity ].
    + exists msg. destruct (H1' msg s' H) as [_ ->]. exact H.
  - apply H2; [ apply (bool_decide_unpack _); vm_compute; reflexivity | reflexivity ].
  - apply H3; [ repeat constructor | reflexivity ].
  - apply H4. split; [ left; exists inlineIf; repeat constructor | reflexivity ].
Defined.

(** C7: a lookup of a component that returns a definition has it in the
    cache afterwards, under the component factory if the owner has one for
    the name and else under the template that the layout gives for the
    owner; no other entry of the cache changes. Either the definition was
    in the cache under that key, and then nothing was reported and nothing
    changed, or nothing was under that key, and then one start and one
    finish were reported for the name and the new definition was stored.
    The same lookup made again returns the identical definition from the
    cache and reports nothing: across the two lookups after a miss the
    instrumentation fires once. *)
Theorem lookupComponent_twice
    (host : Host) (name : string) (owner : Owner) (s s1 : ResolverImpl)
    (d : ResolvedComponentDefinition) :
  lookupComponent host name owner s = Returned (Some d) s1 ->
  lookupComponent host name owner s1 = Returned (Some d) s1
  /\ exists k : key,
       match factoryFor owner (String.append "component:" name) with
       | Some factory => k = inl (fid factory)
       | None =>
           exists layout,
             lookup owner (String.append "template:components/" name) = Some layout
             /\ k = inr (layout (owner_id owner))
       end
       /\ componentDefinitionCache s1 !! k = Some d
       /\ (forall k', k' <> k ->
                      componentDefinitionCache s1 !! k' = componentDefinitionCache s !! k')
       /\ ((componentDefinitionCache s !! k = Some d /\ s1 = s)
           \/ (componentDefinitionCache s !! k = None
               /\ def_id d = nextDefinition s
               /\ reported s1
                  = reported s
                    ++ [InstrumentStart "render.getComponentDefinition"
                          (String.append "component:" name);
                        InstrumentFinish "render.getComponentDefinition"
                          (String.append "component:" name)])).
Proof.
  unfold lookupComponent, _lookupComponentDefinition.
  destruct (lookupComponentPair host owner name) as [found | ] eqn:Hpair.
  2: { destruct (String.eqb name "text-area"); discriminate. }
  assert (Hkey : match factoryFor owner (String.append "component:" name) with
                 | Some factory => cache_key owner found = inl (fid factory)
                 | None =>
                     exists layout,
                       lookup owner (String.append "template:components/" name)
                       = Some layout
                       /\ cache_key owner found = inr (layout (owner_id owner))
                 end).
  { revert Hpair. unfold lookupComponentPair, componentFor, layoutFor.
    destruct (factoryFor owner _) as [c | ].
    - destruct (class c) as [cls | ]; [ destruct (getComponentTemplate host cls) | ];
        try (intros [= <-]; reflexivity);
        destruct (lookup owner _); intros [= <-]; reflexivity.
    - destruct (lookup owner _) as [l | ]; [ | discriminate ].
      intros [= <-]. exists l. split; reflexivity. }
  set (k := cache_key owner found) in *.
  destruct (componentDefinitionCache s !! k) as [c | ] eqn:Hc.
  - intros H. injection H as -> ->. rewrite Hc.
    split; [ reflexivity | ]. exists k.
    split; [ | split; [ exact Hc | split; [ reflexivity | left; auto ] ] ].
    destruct (factoryFor owner _); [ exact Hkey | ].
    destruct Hkey as (l & Hl & Hk). exists l. auto.
  - cbv zeta.
    match goal with
    | |- match match ?b with _ => _ end with _ => _ end = _ -> _ =>
        destruct b as [definition | ] eqn:Hbuilt
    end; [ | discriminate ].
    intros H. injection H as -> <-.
    unfold cache_set. cbn [componentDefinitionCache]. rewrite lookup_insert_eq.
    split; [ reflexivity | ]. exists k.
    split.
    { destruct (factoryFor owner _); [ exact Hkey | ].
      destruct Hkey as (l & Hl & Hk). exists l. auto. }
    split; [ apply lookup_insert_eq | ].
    split; [ intros k' Hk'; now apply lookup_insert_ne | ].
    right.
    split; [ exact Hc | ].
    split; [ | cbn; now rewrite <- app_assoc ].
    destruct (pair_component found) as [f | ].
    + destruct (class f); [ | discriminate ]. now injection Hbuilt as <-.
    + destruct (_TEMPLATE_ONLY_GLIMMER_COMPONENTS host); now injection Hbuilt as <-.
Qed.

Lemma lookupComponent_twice_witness :
  ResolverExamples.first_lookup
  = Returned (Some ResolverExamples.definition_of_x_foo)
      ResolverExamples.resolver_after_first_lookup
  /\ lookupComponent ResolverExamples.host "x-foo" ResolverExamples.owner
       ResolverExamples.resolver_after_first_lookup
     = Returned (Some ResolverExamples.definition_of_x_foo)
         ResolverExamples.resolver_after_first_lookup
  /\ componentDefinitionCache ResolverExamples.resolver_after_first_lookup
       !! (inl 7 : key)
     = Some ResolverExamples.definition_of_x_foo
  /\ length (reported ResolverExamples.resolver_after_first_lookup) = 2.
Proof.
  assert (H : lookupComponent ResolverExamples.host "x-foo" ResolverExamples.owner
                newResolver
              = Returned (Some ResolverExamples.definition_of_x_foo)
                  ResolverExamples.resolver_after_first_lookup)
    by (vm_compute; reflexivity).
  split; [ exact H | ].
  destruct (lookupComponent_twice _ _ _ _ _ _ H) as (H1 & k & Hk & Hd & _).
  split; [ exact H1 | ].
  split; [ | reflexivity ].
  change (factoryFor ResolverExamples.owner (String.append "component:" "x-foo"))
    with (Some (mkFactory 7 (Some 3))) in Hk.
  cbn [fid] in Hk. now rewrite <- Hk.
Defined.

End ResolverProperties.

(** ** Partials and modifiers *)

Section PartialsProperties.
Import Resolver Partials.

Lemma split_not_nil sep s : split sep s <> [].
Proof.
  destruct s as [ | c s]; simpl; [ discriminate | ].
  destruct (Ascii.eqb c sep); [ discriminate | ].
  destruct (split sep s); discriminate.
Qed.

(** Splitting a string at a character and joining the parts with that
    character gives the string back. *)
Lemma join_split (sep : Ascii.ascii) (s : string) :
  join (String sep EmptyString) (split sep s) = s.
Proof.
  induction s as [ | c s IH]; [ reflexivity | ].
  simpl. destruct (Ascii.eqb_spec c sep) as [-> | Hne].
  - pose proof (split_not_nil sep s) as Hnil.
    destruct (split sep s) as [ | p ps] eqn:Hs; [ contradiction | ].
    cbn [join]. simpl. now rewrite <- IH.
  - pose proof (split_not_nil sep s) as Hnil.
    destruct (split sep s) as [ | p ps] eqn:Hs; [ contradiction | ].
    destruct ps as [ | q ps]; simpl in *; now rewrite <- IH.
Qed.

Lemma split_no_separator sep s : contains sep s = false -> split sep s = [s].
Proof.
  induction s as [ | c s IH]; simpl; intros H; [ reflexivity | ].
  apply orb_false_iff in H as [Hc Hs]. rewrite Hc, (IH Hs). reflexivity.
Qed.

Lemma split_append sep dir base :
  split sep (String.append dir (String sep base))
  = match split sep dir with
    | [] => split sep base
    | parts => parts ++ split sep base
    end.
Proof.
  induction dir as [ | c dir IH]; simpl.
  - now rewrite Ascii.eqb_refl.
  - destruct (Ascii.eqb c sep).
    + rewrite IH. pose proof (split_not_nil sep dir).
      destruct (split sep dir); [ contradiction | reflexivity ].
    + rewrite IH. pose proof (split_not_nil sep dir).
      destruct (split sep dir); [ contradiction | reflexivity ].
Qed.

Lemma join_cons sep q rest :
  rest <> [] ->
  join sep (q :: rest) = String.append q (String.append sep (join sep rest)).
Proof. destruct rest; [ contradiction | reflexivity ]. Qed.

Lemma string_append_assoc (s1 s2 s3 : string) :
  String.append (String.append s1 s2) s3 = String.append s1 (String.append s2 s3).
Proof.
  induction s1 as [ | c s1 IH]; [ reflexivity | ].
  change (String c (String.append (String.append s1 s2) s3)
          = String c (String.append s1 (String.append s2 s3))).
  now rewrite IH.
Qed.

Lemma join_snoc (sep : Ascii.ascii) parts p :
  parts <> [] ->
  join (String sep EmptyString) (parts ++ [p])
  = String.append (join (String sep EmptyString) parts) (String sep p).
Proof.
  induction parts as [ | q parts IH]; intros Hne; [ contradiction | ].
  change ((q :: parts) ++ [p]) with (q :: (parts ++ [p])).
  rewrite join_cons by (destruct parts; discriminate).
  destruct parts as [ | q' parts].
  - reflexivity.
  - rewrite IH by discriminate.
    rewrite (join_cons _ q (q' :: parts)) by discriminate.
    now rewrite !string_append_assoc.
Qed.

Lemma parseUnderscoredName_parts (parts : list string) (base : string) :
  let nameParts := parts ++ [base] in
  <[length nameParts - 1 := String "_"%char base]> nameParts
  = parts ++ [String "_"%char base]
  /\ nameParts !! (length nameParts - 1) = Some base.
Proof.
  cbv zeta. rewrite length_app. simpl.
  replace (length parts + 1 - 1) with (length parts + 0) by lia.
  split.
  - now rewrite insert_app_r.
  - rewrite Nat.add_0_r. now rewrite list_lookup_middle.
Qed.

Lemma parseUnderscoredName_dir (dir base : string) :
  contains "/"%char base = false ->
  parseUnderscoredName (String.append dir (String "/"%char base))
  = String.append dir (String "/"%char (String "_"%char base)).
Proof.
  intros Hbase. unfold parseUnderscoredName.
  rewrite split_append, (split_no_separator _ _ Hbase).
  pose proof (split_not_nil "/"%char dir) as Hnil.
  destruct (split "/"%char dir) as [ | p ps] eqn:Hdir; [ contradiction | ].
  destruct (parseUnderscoredName_parts (p :: ps) base) as [Hins Hlast].
  cbv zeta in Hins, Hlast. rewrite Hlast, Hins.
  rewrite join_snoc by discriminate.
  now rewrite <- Hdir, join_split.
Qed.

(** X1: [parseUnderscoredName] puts an underscore before the part of the
    name behind its last slash: a name without a slash gets the underscore
    in front, and [dir/base] becomes [dir/_base], whatever slashes [dir]
    has. *)
Theorem parseUnderscoredName_last_part (dir base : string) :
  contains "/"%char base = false ->
  parseUnderscoredName base = String "_"%char base
  /\ parseUnderscoredName (String.append dir (String "/"%char base))
     = String.append dir (String "/"%char (String "_"%char base)).
Proof.
  intros Hbase. split.
  - unfold parseUnderscoredName.
    rewrite (split_no_separator _ _ Hbase). reflexivity.
  - now apply parseUnderscoredName_dir.
Qed.

Lemma parseUnderscoredName_last_part_witness :
  parseUnderscoredName "profile" = "_profile"%string
  /\ parseUnderscoredName "users/admin/profile" = "users/admin/_profile"%string.
Proof.
  apply (parseUnderscoredName_last_part "users/admin" "profile"). reflexivity.
Defined.

(** A partial is looked up under the underscored name first and under the
    name itself second. *)
Lemma lookupPartial_underscored_first (name : string) (owner : Owner) :
  name <> EmptyString ->
  contains "."%char name = false ->
  let underscored := lookup owner (String.append "template:" (parseUnderscoredName name)) in
  let literal := lookup owner (String.append "template:" name) in
  _lookupPartial name owner
  = (["ember-views.partial"%string],
     match underscored, literal with
     | Some t, _ => Found (mkPartial name (t (owner_id owner)))
     | None, Some t => Found (mkPartial name (t (owner_id owner)))
     | None, None =>
         Failed (Assertion (unable_message name))
     end).
Proof.
  intros Hname Hdot. cbv zeta.
  unfold _lookupPartial, lookupPartial, templateFor.
  apply String.eqb_neq in Hname. rewrite Hname, Hdot.
  destruct (lookup owner (String.append "template:" (parseUnderscoredName name)));
    [ reflexivity | ].
  destruct (lookup owner (String.append "template:" name)); reflexivity.
Qed.

Lemma append_not_empty dir c base : String.append dir (String c base) <> EmptyString.
Proof. destruct dir; discriminate. Qed.

(** X2: the partial [dir/base] is the template that the owner has as
    [template:dir/_base], whether or not it also has [template:dir/base];
    only without the underscored template is [template:dir/base] used. The
    lookup reports the deprecation of partials. *)
Theorem partial_is_found_under_underscored_name
    (dir base : string) (owner : Owner) (t : TemplateFactory) :
  let name := String.append dir (String "/"%char base) in
  let underscored :=
    String.append "template:" (String.append dir (String "/"%char (String "_"%char base))) in
  contains "/"%char base = false ->
  contains "."%char name = false ->
  (lookup owner underscored = Some t ->
   _lookupPartial name owner
   = (["ember-views.partial"%string], Found (mkPartial name (t (owner_id owner)))))
  /\ (lookup owner underscored = None ->
      lookup owner (String.append "template:" name) = Some t ->
      _lookupPartial name owner
      = (["ember-views.partial"%string], Found (mkPartial name (t (owner_id owner))))).
Proof.
  intros name underscored Hbase Hdot.
  pose proof (lookupPartial_underscored_first name owner
                (append_not_empty dir _ base) Hdot) as H.
  cbv zeta in H.
  pose proof (parseUnderscoredName_dir dir base Hbase) as Hparse.
  fold name in Hparse. rewrite Hparse in H. fold underscored in H.
  split.
  - intros Hu. now rewrite Hu in H.
  - intros Hu Hl. now rewrite Hu, Hl in H.
Qed.

Lemma partial_is_found_under_underscored_name_witness :
  _lookupPartial "users/card" PartialsExamples.owner
  = (["ember-views.partial"%string], Found (mkPartial "users/card" 71)).
Proof.
  destruct (partial_is_found_under_underscored_name "users" "card"
              PartialsExamples.owner (fun o => 70 + o) eq_refl eq_refl) as [H _].
  exact (H eq_refl).
Defined.

(** X3: a lookup of a partial fails, and never answers "not found": with the
    assertion that the partial cannot be found when the owner has neither
    template or when the name is empty, and with the assertion about
    periods, before the owner is asked, when the name has a period. With
    [PARTIALS] off the resolver answers [null] and reports nothing. *)
Theorem lookupPartial_failures (name : string) (owner : Owner) :
  (contains "."%char name = true ->
   snd (_lookupPartial name owner)
   = Failed (Assertion (periods_message name)))
  /\ (contains "."%char name = false ->
      lookup owner (String.append "template:" (parseUnderscoredName name)) = None ->
      lookup owner (String.append "template:" name) = None ->
      snd (_lookupPartial name owner)
      = Failed (Assertion (unable_message name)))
  /\ snd (_lookupPartial EmptyString owner)
     = Failed (Assertion (unable_message ""))
  /\ resolver_lookupPartial false name owner = ([], Found None)
  /\ fst (resolver_lookupPartial true name owner) = ["ember-views.partial"%string].
Proof.
  split; [ | split; [ | split; [ | split ] ] ].
  - intros Hdot. destruct name as [ | c name]; [ discriminate | ].
    unfold _lookupPartial, lookupPartial, templateFor.
    now rewrite Hdot.
  - intros Hdot Hu Hl. destruct name as [ | c name].
    + reflexivity.
    + pose proof (lookupPartial_underscored_first (String c name) owner
                    ltac:(discriminate) Hdot) as H.
      cbv zeta in H. now rewrite H, Hu, Hl.
  - reflexivity.
  - reflexivity.
  - unfold resolver_lookupPartial, _lookupPartial, lookupPartial.
    now destruct (templateFor _ _ _) as [[t | ] | ].
Qed.

Lemma lookupPartial_failures_witness :
  snd (_lookupPartial "users.card" PartialsExamples.owner)
  = Failed (Assertion (periods_message "users.card"))
  /\ snd (_lookupPartial "missing" PartialsExamples.owner)
     = Failed (Assertion (unable_message "missing")).
Proof.
  destruct (lookupPartial_failures "users.card" PartialsExamples.owner) as (H1 & _).
  destruct (lookupPartial_failures "missing" PartialsExamples.owner) as (_ & H2 & _).
  split; [ apply H1; reflexivity | apply H2; reflexivity ].
Defined.

(** X4: a modifier is not found exactly when its name is not built in, is
    not a property that the object of the built-ins inherits, and the owner
    has no factory with a class for it. The built-in modifiers [action] and
    [on] are returned whatever the owner has registered under their names,
    without an error; and a name such as [toString] never reaches the
    owner. *)
Theorem lookupModifier_not_found_iff (name : string) (owner : Owner) :
  (_lookupModifier name owner = None
   <-> name <> "action"%string /\ name <> "on"%string
       /\ (name ∉ Object_prototype)
       /\ match factoryFor owner (String.append "modifier:" name) with
          | Some modifier => class modifier = None
          | None => True
          end)
  /\ _lookupModifier "action" owner = Some (BuiltInModifier actionModifier)
  /\ _lookupModifier "on" owner = Some (BuiltInModifier onModifier)
  /\ ((name ∈ Object_prototype) ->
      _lookupModifier name owner = Some (InheritedProperty name)).
Proof.
  assert (Hb : name <> "action"%string -> name <> "on"%string ->
               builtInModifiers !! name = None).
  { intros Ha Ho. unfold builtInModifiers. simpl.
    rewrite !lookup_insert_ne by congruence. apply lookup_empty. }
  split; [ | split; [ reflexivity | split; [ reflexivity | ] ] ].
  - unfold _lookupModifier.
    destruct (String.eqb_spec name "action") as [-> | Ha].
    { split; [ discriminate | intros (H & _); contradiction ]. }
    destruct (String.eqb_spec name "on") as [-> | Ho].
    { split; [ discriminate | intros (_ & H & _); contradiction ]. }
    rewrite (Hb Ha Ho).
    destruct (bool_decide (name ∈ Object_prototype)) eqn:Hin.
    { apply bool_decide_eq_true in Hin.
      split; [ discriminate | intros (_ & _ & H & _); contradiction ]. }
    apply bool_decide_eq_false in Hin.
    destruct (factoryFor owner _) as [modifier | ].
    + destruct (class modifier); split; try discriminate; auto.
      intros (_ & _ & _ & H). discriminate.
    + split; auto.
  - intros Hin. unfold _lookupModifier.
    assert (Ha : name <> "action"%string).
    { intros ->. revert Hin. apply (bool_decide_unpack _). reflexivity. }
    assert (Ho : name <> "on"%string).
    { intros ->. revert Hin. apply (bool_decide_unpack _). reflexivity. }
    rewrite (Hb Ha Ho). now rewrite bool_decide_eq_true_2.
Qed.

Lemma lookupModifier_not_found_iff_witness :
  _lookupModifier "toString" PartialsExamples.owner = Some (InheritedProperty "toString")
  /\ _lookupModifier "missing" PartialsExamples.owner = None.
Proof.
  destruct (lookupModifier_not_found_iff "toString" PartialsExamples.owner)
    as (_ & _ & _ & H1).
  destruct (lookupModifier_not_found_iff "missing" PartialsExamples.owner)
    as (H2 & _).
  split.
  - apply H1. apply (bool_decide_unpack _). reflexivity.
  - apply H2. split; [ discriminate | ]. split; [ discriminate | ].
    split; [ apply (bool_decide_unpack _); reflexivity | exact I ].
Defined.

End PartialsProperties.
(** ** The resolver: pairs, misses, failures and the cache *)

Section ResolverLookups.
Import Resolver ResolverState.

Lemma lookupComponentPair_component (host : Host) (owner : Owner) (name : string) found :
  lookupComponentPair host owner name = Some found ->
  pair_component found = componentFor name owner.
Proof.
  unfold lookupComponentPair.
  destruct (componentFor name owner) as [c | ].
  - destruct (class c) as [cls | ]; [ destruct (getComponentTemplate host cls) | ];
      try (intros [= <-]; reflexivity);
      destruct (layoutFor name owner); intros [= <-]; reflexivity.
  - destruct (layoutFor name owner); [ intros [= <-]; reflexivity | discriminate ].
Qed.

Lemma lookupComponentPair_None (host : Host) (owner : Owner) (name : string) :
  lookupComponentPair host owner name = None ->
  componentFor name owner = None.
Proof.
  unfold lookupComponentPair.
  destruct (componentFor name owner) as [c | ]; [ | reflexivity ].
  destruct (class c) as [cls | ]; [ destruct (getComponentTemplate host cls) | ];
    try discriminate; destruct (layoutFor name owner); discriminate.
Qed.

(** X5: the pair of a component is missing exactly when the owner has
    neither a factory nor a template for the name. The component of a pair
    is the factory of the owner; its layout is the template set on the class
    of the factory if there is one, whatever the owner has as
    [template:components/<name>], and the template of the owner otherwise. *)
Theorem lookupComponentPair_found (host : Host) (owner : Owner) (name : string) :
  (lookupComponentPair host owner name = None
   <-> componentFor name owner = None /\ layoutFor name owner = None)
  /\ (forall found,
        lookupComponentPair host owner name = Some found ->
        pair_component found = componentFor name owner)
  /\ (forall c cls attached,
        componentFor name owner = Some c ->
        class c = Some cls ->
        getComponentTemplate host cls = Some attached ->
        lookupComponentPair host owner name = Some (ComponentAndLayout c attached))
  /\ (forall found,
        lookupComponentPair host owner name = Some found ->
        (forall c cls, componentFor name owner = Some c -> class c = Some cls ->
                       getComponentTemplate host cls = None) ->
        pair_layout found = layoutFor name owner).
Proof.
  unfold lookupComponentPair.
  destruct (componentFor name owner) as [c | ] eqn:Hc.
  - destruct (class c) as [cls | ] eqn:Hcls.
    + destruct (getComponentTemplate host cls) as [attached | ] eqn:Ha.
      * split; [ split; [ discriminate | intros [H _]; discriminate ] | ].
        split; [ intros found H; now injection H as <- | ].
        split; [ intros c' cls' a' H1 H2 H3; congruence | ].
        intros found _ H. specialize (H c cls eq_refl Hcls). congruence.
      * destruct (layoutFor name owner) as [l | ];
          (split; [ split; [ discriminate | intros [H _]; discriminate ] | ]);
          (split; [ intros found H; now injection H as <- | ]);
          (split; [ intros c' cls' a' H1 H2 H3; congruence | ]);
          intros found H _; now injection H as <-.
    + destruct (layoutFor name owner) as [l | ];
        (split; [ split; [ discriminate | intros [H _]; discriminate ] | ]);
        (split; [ intros found H; now injection H as <- | ]);
        (split; [ intros c' cls' a' H1 H2 H3; congruence | ]);
        intros found H _; now injection H as <-.
  - destruct (layoutFor name owner) as [l | ].
    + split; [ split; [ discriminate | intros [_ H]; discriminate ] | ].
      split; [ intros found H; now injection H as <- | ].
      split; [ intros c' cls' a' H1 H2 H3; congruence | ].
      intros found H _; now injection H as <-.
    + split; [ split; auto | ].
      split; [ intros found H; discriminate | ].
      split; [ intros c' cls' a' H1 H2 H3; congruence | ].
      intros found H; discriminate.
Qed.

Lemma lookupComponentPair_found_witness :
  lookupComponentPair LookupExamples.host LookupExamples.owner "x-foo"
  = Some (ComponentAndLayout (mkFactory 7 (Some 3)) (fun o => 60 + o))
  /\ layoutFor "x-foo" LookupExamples.owner = Some (fun o => 40 + o).
Proof.
  split; [ | reflexivity ].
  destruct (lookupComponentPair_found LookupExamples.host LookupExamples.owner "x-foo")
    as (_ & _ & H & _).
  apply (H (mkFactory 7 (Some 3)) 3 (fun o => 60 + o)); reflexivity.
Defined.

(** X6: a lookup of a component answers "not found" exactly when the name
    has no pair and is not [text-area]; the resolver is then as it was:
    nothing is stored in the cache for the name and nothing is reported. *)
Theorem lookupComponent_not_found
    (host : Host) (name : string) (owner : Owner) (s s' : ResolverImpl) :
  lookupComponent host name owner s = Returned None s'
  <-> lookupComponentPair host owner name = None
      /\ name <> "text-area"%string
      /\ s' = s.
Proof.
  unfold lookupComponent, _lookupComponentDefinition.
  destruct (lookupComponentPair host owner name) as [found | ].
  - split; [ | intros [H _]; discriminate ].
    destruct (componentDefinitionCache s !! cache_key owner found); [ discriminate | ].
    cbv zeta.
    match goal with
    | |- match match ?b with _ => _ end with _ => _ end = _ -> _ => destruct b
    end; discriminate.
  - destruct (String.eqb_spec name "text-area") as [-> | Hne].
    + split; [ discriminate | intros (_ & H & _); contradiction ].
    + split; [ intros H; injection H as <-; auto | intros (_ & _ & ->); reflexivity ].
Qed.

Lemma lookupComponent_not_found_witness :
  lookupComponent LookupExamples.host "x-qux" LookupExamples.owner newResolver
  = Returned None newResolver.
Proof.
  apply (lookupComponent_not_found LookupExamples.host "x-qux" LookupExamples.owner).
  split; [ reflexivity | split; [ discriminate | reflexivity ] ].
Defined.

(** X7: a lookup of a component raises in two cases only. The name
    [text-area] without a pair raises the hint about [<Textarea />] and
    leaves the resolver as it was. A factory without a class that is not in
    the cache raises the missing class assertion after the start of the
    lookup was reported: the finish is never reported and nothing is
    stored. *)
Theorem lookupComponent_raises
    (host : Host) (name : string) (owner : Owner) (s s' : ResolverImpl) (msg : string) :
  lookupComponent host name owner s = Raised msg s'
  <-> (lookupComponentPair host owner name = None
       /\ name = "text-area"%string
       /\ msg = "Could not find component `<TextArea />` (did you mean `<Textarea />`?)"%string
       /\ s' = s)
      \/ (exists factory,
            componentFor name owner = Some factory
            /\ class factory = None
            /\ componentDefinitionCache s !! (inl (fid factory) : key) = None
            /\ msg = String.append "missing component class " name
            /\ s' = report (InstrumentStart "render.getComponentDefinition"
                              (instrumentationPayload name)) s).
Proof.
  pose proof (lookupComponentPair_component host owner name) as Hcomp.
  pose proof (lookupComponentPair_None host owner name) as Hnone.
  unfold lookupComponent, _lookupComponentDefinition.
  destruct (lookupComponentPair host owner name) as [found | ] eqn:Hpair.
  - specialize (Hcomp found eq_refl).
    split.
    + intros H. right.
      destruct (componentDefinitionCache s !! cache_key owner found) eqn:Hcache;
        [ discriminate | ].
      cbv zeta in H.
      destruct (pair_component found) as [factory | ] eqn:Hpc.
      * exists factory. split; [ now symmetry | ].
        destruct (class factory); [ discriminate | ].
        injection H as <- <-.
        assert (Hkey : cache_key owner found = inl (fid factory))
          by (destruct found; simpl in *; congruence).
        rewrite Hkey in Hcache. auto.
      * destruct (_TEMPLATE_ONLY_GLIMMER_COMPONENTS host); discriminate.
    + intros [(H & _) | (factory & Hf & Hcls & Hcache & -> & ->)]; [ discriminate | ].
      rewrite Hf in Hcomp.
      assert (Hkey : cache_key owner found = inl (fid factory))
        by (destruct found; simpl in *; congruence).
      rewrite Hkey, Hcache. cbv zeta. now rewrite Hcomp, Hcls.
  - pose proof (Hnone eq_refl) as Hc.
    destruct (String.eqb_spec name "text-area") as [-> | Hne].
    + split.
      * intros H. injection H as <- <-. left. auto.
      * intros [(_ & _ & -> & ->) | (factory & Hf & _)]; [ reflexivity | congruence ].
    + split; [ discriminate | ].
      intros [(_ & H & _) | (factory & Hf & _)]; [ contradiction | congruence ].
Qed.

Lemma lookupComponent_raises_witness :
  lookupComponent LookupExamples.host "x-none" LookupExamples.owner newResolver
  = Raised "missing component class x-none"
      (mkResolver ∅ 0 ∅
         [InstrumentStart "render.getComponentDefinition" "component:x-none"]).
Proof.
  apply (lookupComponent_raises LookupExamples.host "x-none" LookupExamples.owner).
  right. exists (mkFactory 8 None). repeat split; reflexivity.
Defined.

Lemma cache_wf_new : cache_wf newResolver.
Proof.
  split; [ intros k d H | intros k1 k2 d1 d2 H ];
    unfold newResolver in H; simpl in H; now rewrite lookup_empty in H.
Qed.

Lemma cache_wf_cache_set (k : key) (d : ResolvedComponentDefinition) (s : ResolverImpl) :
  cache_wf s ->
  componentDefinitionCache s !! k = None ->
  def_id d = nextDefinition s ->
  cache_wf (cache_set k d s).
Proof.
  intros [Hlt Hinj] Hk Hd. unfold cache_set. split; simpl.
  - intros k0 d0 H. destruct (decide (k0 = k)) as [-> | Hne].
    + rewrite lookup_insert_eq in H. injection H as <-. lia.
    + rewrite lookup_insert_ne in H by congruence. apply Hlt in H. lia.
  - intros k1 k2 d1 d2 H1 H2 Hid.
    destruct (decide (k1 = k)) as [-> | Hne1], (decide (k2 = k)) as [-> | Hne2];
      try reflexivity.
    + rewrite lookup_insert_eq in H1. injection H1 as <-.
      rewrite lookup_insert_ne in H2 by congruence. apply Hlt in H2. lia.
    + rewrite lookup_insert_eq in H2. injection H2 as <-.
      rewrite lookup_insert_ne in H1 by congruence. apply Hlt in H1. lia.
    + rewrite lookup_insert_ne in H1, H2 by congruence. eauto.
Qed.

(** X8: the cache of definitions only grows, and its definitions stay
    distinct objects. A lookup of a component, whether it returns or raises,
    keeps every entry of the cache as it is, adds to the reports without
    changing the earlier ones, and leaves the helpers alone; the definitions
    of two keys are never the same object. *)
Theorem lookupComponent_keeps_cache
    (host : Host) (name : string) (owner : Owner) (s : ResolverImpl) :
  cache_wf s ->
  let s' := state_of (lookupComponent host name owner s) in
  cache_wf s'
  /\ componentDefinitionCache s ⊆ componentDefinitionCache s'
  /\ reported s `prefix_of` reported s'
  /\ CLASSIC_HELPER_MANAGER_ASSOCIATED s' = CLASSIC_HELPER_MANAGER_ASSOCIATED s.
Proof.
  intros Hwf. cbv zeta.
  unfold lookupComponent, _lookupComponentDefinition.
  destruct (lookupComponentPair host owner name) as [found | ].
  2: { destruct (String.eqb name "text-area"); simpl; auto. }
  destruct (componentDefinitionCache s !! cache_key owner found) eqn:Hcache.
  { simpl; auto. }
  cbv zeta.
  match goal with
  | |- context [match ?b with Some _ => Returned _ _ | None => _ end] =>
      destruct b as [definition | ] eqn:Hbuilt
  end.
  - simpl. split; [ | split; [ | split ] ].
    + apply (cache_wf_cache_set _ _ (report _ (report _ s))); auto.
      destruct (pair_component found) as [f | ].
      * destruct (class f); [ | discriminate ]. now injection Hbuilt as <-.
      * destruct (_TEMPLATE_ONLY_GLIMMER_COMPONENTS host); now injection Hbuilt as <-.
    + now apply insert_subseteq.
    + rewrite <- app_assoc. now apply prefix_app_r.
    + reflexivity.
  - simpl. split; [ exact Hwf | ].
    split; [ reflexivity | ].
    split; [ now apply prefix_app_r | reflexivity ].
Qed.



Lemma lookupComponent_keeps_cache_witness :
  let s := state_of (lookupComponent LookupExamples.host "x-foo" LookupExamples.owner
                       newResolver) in
  let s' := state_of (lookupComponent LookupExamples.host "x-bar"
                        LookupExamples.owner s) in
  cache_wf s' /\ componentDefinitionCache s ⊆ componentDefinitionCache s'.
Proof.
  cbv zeta.
  destruct (lookupComponent_keeps_cache LookupExamples.host "x-foo"
              LookupExamples.owner newResolver cache_wf_new) as (H0 & _).
  destruct (lookupComponent_keeps_cache LookupExamples.host "x-bar"
              LookupExamples.owner _ H0) as (H1 & H2 & _).
  split; assumption.
Defined.

(** X9: the cache is read by the key of the pair, not by the name. After a
    lookup has returned a definition, a lookup of any name, for any owner,
    whose pair has the same key (the same factory, or without a factory the
    same template) returns that very definition, with the name and the
    template of the first lookup, and reports nothing. *)
Theorem lookupComponent_shares_definition_by_key
    (host : Host) (name1 name2 : string) (owner1 owner2 : Owner)
    (s s1 : ResolverImpl) (d : ResolvedComponentDefinition)
    (found1 found2 : LookupResult) :
  lookupComponent host name1 owner1 s = Returned (Some d) s1 ->
  lookupComponentPair host owner1 name1 = Some found1 ->
  lookupComponentPair host owner2 name2 = Some found2 ->
  cache_key owner1 found1 = cache_key owner2 found2 ->
  lookupComponent host name2 owner2 s1 = Returned (Some d) s1.
Proof.
  intros H H1 H2 Hkey.
  assert (Hcached : componentDefinitionCache s1 !! cache_key owner1 found1 = Some d).
  { revert H. unfold lookupComponent, _lookupComponentDefinition. rewrite H1.
    destruct (componentDefinitionCache s !! cache_key owner1 found1) eqn:Hc.
    - intros H. now injection H as <- <-.
    - cbv zeta.
      match goal with
      | |- match match ?b with _ => _ end with _ => _ end = _ -> _ => destruct b
      end; [ | discriminate ].
      intros H. injection H as <- <-. apply lookup_insert_eq. }
  unfold lookupComponent, _lookupComponentDefinition.
  now rewrite H2, <- Hkey, Hcached.
Qed.

Lemma lookupComponent_shares_definition_by_key_witness :
  let first := lookupComponent LookupExamples.host "x-bar" LookupExamples.owner
                 newResolver in
  let d := mkDefinition 0 (StateTemplateOnly "x-bar") TEMPLATE_ONLY_COMPONENT_MANAGER
             (Some 51) in
  first = Returned (Some d) (state_of first)
  /\ lookupComponent LookupExamples.host "x-baz" LookupExamples.owner (state_of first)
     = Returned (Some d) (state_of first).
Proof.
  cbv zeta.
  assert (H : lookupComponent LookupExamples.host "x-bar" LookupExamples.owner newResolver
              = Returned
                  (Some (mkDefinition 0 (StateTemplateOnly "x-bar")
                           TEMPLATE_ONLY_COMPONENT_MANAGER (Some 51)))
                  (state_of (lookupComponent LookupExamples.host "x-bar"
                               LookupExamples.owner newResolver)))
    by (vm_compute; reflexivity).
  split; [ exact H | ].
  apply (lookupComponent_shares_definition_by_key LookupExamples.host "x-bar" "x-baz"
           LookupExamples.owner LookupExamples.owner newResolver _ _
           (LayoutOnly (fun o => 50 + o)) (LayoutOnly (fun o => 50 + o)) H);
    reflexivity.
Defined.

(** X10: a lookup of a helper that returns is memoised in one place only:
    the factory of a classic helper, and nothing else, is added to the set
    of factories that have their manager (nothing for a built-in, for a
    member inherited from [Object.prototype], for another helper or for a
    miss); the cache of components and the reports are as they were. The
    same lookup made again returns the same helper and changes nothing. *)
Theorem lookupHelper_memoised
    (host : Host) (name : string) (owner : Owner) (s s' : ResolverImpl)
    (helper : option HelperDefinitionState) :
  _lookupHelper host name owner s = Returned helper s' ->
  _lookupHelper host name owner s' = Returned helper s'
  /\ CLASSIC_HELPER_MANAGER_ASSOCIATED s'
     = CLASSIC_HELPER_MANAGER_ASSOCIATED s
       ∪ match helper with
         | Some (HelperFactory factory) => {[fid factory]}
         | _ => ∅
         end
  /\ componentDefinitionCache s' = componentDefinitionCache s
  /\ nextDefinition s' = nextDefinition s
  /\ reported s' = reported s.
Proof.
  unfold _lookupHelper.
  destruct (bool_decide _ && hasRegistration owner _); [ discriminate | ].
  unfold builtInHelpers.
  destruct (BUILTINS_HELPERS !! name).
  { intros [= <- <-]. repeat split. now rewrite (right_id_L ∅ (∪)). }
  destruct (bool_decide (name ∈ Object_prototype)).
  { intros [= <- <-]. repeat split. now rewrite (right_id_L ∅ (∪)). }
  destruct (factoryFor owner _) as [factory | ].
  2: { intros [= <- <-]. repeat split. now rewrite (right_id_L ∅ (∪)). }
  destruct (class factory) as [definition | ].
  2: { intros [= <- <-]. repeat split. now rewrite (right_id_L ∅ (∪)). }
  destruct (isFunction host definition && isClassicHelper host definition).
  2: { intros [= <- <-]. repeat split. now rewrite (right_id_L ∅ (∪)). }
  cbv zeta.
  destruct (bool_decide (fid factory ∈ CLASSIC_HELPER_MANAGER_ASSOCIATED s)) eqn:Hin.
  - intros [= <- <-]. rewrite Hin.
    apply bool_decide_eq_true in Hin. repeat split.
    apply set_eq. intros y. rewrite elem_of_union, elem_of_singleton.
    split; [ auto | intros [H | ->]; assumption ].
  - intros [= <- <-]. cbn [CLASSIC_HELPER_MANAGER_ASSOCIATED].
    rewrite bool_decide_eq_true_2 by (apply elem_of_union_l; now apply elem_of_singleton).
    repeat split. apply (comm_L (∪)).
Qed.

Lemma lookupHelper_memoised_witness :
  let first := _lookupHelper LookupExamples.host "shout" LookupExamples.owner
                 newResolver in
  first = Returned (Some (HelperFactory (mkFactory 9 (Some 5)))) (state_of first)
  /\ _lookupHelper LookupExamples.host "shout" LookupExamples.owner (state_of first)
     = Returned (Some (HelperFactory (mkFactory 9 (Some 5)))) (state_of first)
  /\ CLASSIC_HELPER_MANAGER_ASSOCIATED (state_of first) = {[9]}.
Proof.
  cbv zeta.
  assert (H : _lookupHelper LookupExamples.host "shout" LookupExamples.owner newResolver
              = Returned (Some (HelperFactory (mkFactory 9 (Some 5))))
                  (state_of (_lookupHelper LookupExamples.host "shout"
                               LookupExamples.owner newResolver)))
    by (vm_compute; reflexivity).
  destruct (lookupHelper_memoised _ _ _ _ _ _ H) as (H1 & H2 & _).
  split; [ exact H | ]. split; [ exact H1 | ].
  rewrite H2. apply (left_id_L ∅ (∪)).
Defined.

End ResolverLookups.
(** ** The registry of views *)

Section ViewRegistryProperties.
Import Views.

(** X11: a view whose id is free is registered under its id and nothing
    else in the registry changes; unregistering it gives back the registry
    as it was. *)
Theorem view_register_unregister (view : View) (registry : gmap string View) :
  registry !! viewId view = None ->
  register view registry = Registered (<[viewId view := view]> registry)
  /\ (<[viewId view := view]> registry) !! viewId view = Some view
  /\ (forall id, id <> viewId view ->
                 (<[viewId view := view]> registry) !! id = registry !! id)
  /\ unregister view (<[viewId view := view]> registry) = registry.
Proof.
  intros Hfree. unfold register, unregister. rewrite Hfree.
  split; [ reflexivity | ].
  split; [ apply lookup_insert_eq | ].
  split; [ intros id Hid; now apply lookup_insert_ne | ].
  now apply delete_insert_id.
Qed.

Lemma view_register_unregister_witness :
  register (mkView 1 "ember1") ∅ = Registered {[ "ember1"%string := mkView 1 "ember1" ]}
  /\ unregister (mkView 1 "ember1") {[ "ember1"%string := mkView 1 "ember1" ]} = ∅.
Proof.
  destruct (view_register_unregister (mkView 1 "ember1") ∅ (lookup_empty _))
    as (H1 & _ & _ & H2).
  split; [ exact H1 | exact H2 ].
Defined.

(** X12: the registry is keyed by the id alone. Registering fails, and
    leaves the registry as it is, exactly when the id is in use, be it by
    the same view or by another one; and unregistering a view frees its id
    whichever view holds it, so that a view with that id can be registered
    afterwards. *)
Theorem view_registry_is_keyed_by_id (view : View) (registry : gmap string View) :
  (forall msg registry',
     register view registry = AssertionFailed msg registry'
     <-> is_Some (registry !! viewId view)
         /\ msg = String.append "Attempted to register a view with an id already in use: "
                    (viewId view)
         /\ registry' = registry)
  /\ (forall other,
        viewId other = viewId view ->
        register view (unregister other registry)
        = Registered (<[viewId view := view]> registry)).
Proof.
  split.
  - intros msg registry'. unfold register.
    destruct (registry !! viewId view) as [held | ].
    + split; [ intros [= <- <-]; eauto | intros (_ & -> & ->); reflexivity ].
    + split; [ discriminate | intros ([held H] & _); discriminate ].
  - intros other Hid. unfold register, unregister. rewrite Hid.
    rewrite lookup_delete_eq. f_equal. apply insert_delete_eq.
Qed.

Lemma view_registry_is_keyed_by_id_witness :
  let registry : gmap string View := {[ "ember1"%string := mkView 1 "ember1" ]} in
  register (mkView 2 "ember1") registry
  = AssertionFailed "Attempted to register a view with an id already in use: ember1"
      registry
  /\ register (mkView 2 "ember1") (unregister (mkView 3 "ember1") registry)
     = Registered {[ "ember1"%string := mkView 2 "ember1" ]}.
Proof.
  cbv zeta.
  destruct (view_registry_is_keyed_by_id (mkView 2 "ember1")
              {[ "ember1"%string := mkView 1 "ember1" ]}) as [H1 H2].
  split.
  - apply H1. split; [ | split; reflexivity ].
    exists (mkView 1 "ember1"). apply lookup_singleton_eq.
  - rewrite (H2 (mkView 3 "ember1") eq_refl). f_equal; apply insert_singleton_eq.
Defined.

End ViewRegistryProperties.
(** ** The registry of renderers and the run loop *)

(** X13: [register] appends a renderer that is not registered, and
    [deregister] then gives the registry back; [register] fails on a
    renderer that is registered, [deregister] on one that is not, and both
    then leave the registry as it is. [deregister] takes out the first
    entry of the renderer and keeps the order of the others. *)
Theorem registry_register_deregister (r : nat) (w : World) :
  ((r ∉ renderers w) ->
   register r w = Ok (set_renderers w (renderers w ++ [r]))
   /\ deregister r (set_renderers w (renderers w ++ [r])) = Ok w
   /\ deregister r w
      = Err (AssertionFailed "Cannot deregister unknown unregistered renderer") w)
  /\ (forall pre post,
        renderers w = pre ++ r :: post ->
        (r ∉ pre) ->
        register r w = Err (AssertionFailed "Cannot register the same renderer twice") w
        /\ deregister r w = Ok (set_renderers w (pre ++ post))).
Proof.
  split.
  - intros Habsent. unfold register, deregister.
    rewrite (proj2 (indexOf_absent r (renderers w)) Habsent).
    split; [ reflexivity | ]. split; [ | reflexivity ].
    cbn [renderers set_renderers].
    replace (renderers w ++ [r]) with (renderers w ++ r :: []) by reflexivity.
    rewrite indexOf_middle by assumption.
    replace (negb (Z.of_nat (length (renderers w)) =? -1)%Z) with true
      by (symmetry; apply negb_true_iff, Z.eqb_neq; lia).
    cbn [assert bind renderers set_renderers].
    rewrite splice1_middle, app_nil_r. now destruct w.
  - intros pre post Hreg Hpre. unfold register, deregister.
    rewrite Hreg, indexOf_middle by assumption.
    replace (Z.of_nat (length pre) =? -1)%Z with false
      by (symmetry; apply Z.eqb_neq; lia).
    split; [ reflexivity | ].
    cbn [negb assert bind]. now rewrite Hreg, splice1_middle.
Qed.

Lemma registry_register_deregister_witness :
  register 2 (set_renderers (newWorld true 10 5%Z) [0; 1])
  = Ok (set_renderers (newWorld true 10 5%Z) [0; 1; 2])
  /\ deregister 0 (set_renderers (newWorld true 10 5%Z) [0; 1; 0])
     = Ok (set_renderers (newWorld true 10 5%Z) [1; 0]).
Proof.
  split.
  - apply (registry_register_deregister 2 (set_renderers (newWorld true 10 5%Z) [0; 1])).
    intros H. repeat (apply elem_of_cons in H as [H | H]; [ discriminate | ]).
    now apply elem_of_nil in H.
  - apply (registry_register_deregister 0
             (set_renderers (newWorld true 10 5%Z) [0; 1; 0]) ) with (pre := [])
                                                                    (post := [1; 0]).
    + reflexivity.
    + apply not_elem_of_nil.
Defined.

Lemma schedule_each rs : forall w,
  fold_left (fun w r => _scheduleRevalidate r w) rs w
  = emits (map EvScheduleRevalidate rs) w.
Proof.
  induction rs as [ | r rs IH]; intros w; simpl.
  - now rewrite emits_nil.
  - rewrite IH. unfold _scheduleRevalidate. apply emits_emit.
Qed.

(** X14: at the begin of a run loop every registered renderer is asked to
    revalidate, once and in the order of the registry; nothing is rendered
    and nothing else changes. *)
Theorem loopBegin_schedules_registered_renderers (w : World) :
  loopBegin w = emits (map EvScheduleRevalidate (renderers w)) w
  /\ forall r, EvScheduleRevalidate r ∈ map EvScheduleRevalidate (renderers w)
               <-> r ∈ renderers w.
Proof.
  split; [ apply schedule_each | ].
  intros r. rewrite list_elem_of_fmap. split.
  - intros (q & [= ->] & Hq). exact Hq.
  - intros Hr. eauto.
Qed.

(** ** Roots *)

(** X15: [RootState.destroy] works once. On a root that is alive it clears
    the root, tears down the render result if there is one, and returns; on
    a root that is destroyed it throws a [TypeError] and changes nothing, so
    a second [destroy] of the same root always throws. *)
Theorem RootState_destroy_once (r i : nat) (w : World) :
  (destroyed (rootState r i w) = true -> RootState_destroy r i w = Err TypeError w)
  /\ (destroyed (rootState r i w) = false ->
      exists w',
        RootState_destroy r i w = Ok w'
        /\ rootState r i w' = destroyedRoot
        /\ log w' = log w ++ (if result (rootState r i w) then [EvDestroyResult r i] else [])
        /\ RootState_destroy r i w' = Err TypeError w').
Proof.
  unfold RootState_destroy. split; intros Hd; rewrite Hd; [ reflexivity | ].
  eexists. split; [ reflexivity | ].
  destruct (result (rootState r i w)).
  - rewrite !rootState_emit, rootState_set_rootState.
    repeat split.
  - rewrite rootState_set_rootState. repeat split. simpl. now rewrite app_nil_r.
Qed.

Lemma RootState_destroy_once_witness :
  exists w',
    RootState_destroy 0 1 twoRoots = Ok w'
    /\ log w' = log twoRoots ++ [EvDestroyResult 0 1]
    /\ RootState_destroy 0 1 w' = Err TypeError w'.
Proof.
  destruct (RootState_destroy_once 0 1 twoRoots) as [_ H].
  destruct (H eq_refl) as (w' & H1 & _ & H2 & H3).
  exists w'. repeat split; assumption.
Defined.
(** ** Transactions, removal and destruction *)

(** X17: on a renderer whose [_roots] holds the attached roots that are
    alive, [remove] returns; it destroys the roots of the view and takes
    them out of [_roots] at once, keeps the other roots in their order and
    as they are, and never changes the registry of renderers, also when it
    removes the last root. *)
Theorem remove_destroys_roots_of_view (a r view : nat) (w : World) :
  consistent a (this r w) ->
  exists w',
    remove r view w = Ok w'
    /\ roots_of r w'
       = filter (fun id => isFor (rootState r id w) view = false) (roots_of r w)
    /\ (forall id, id ∈ roots_of r w -> isFor (rootState r id w) view = true ->
                   rootState r id w' = destroyedRoot)
    /\ (forall id, isFor (rootState r id w) view = false ->
                   rootState r id w' = rootState r id w)
    /\ renderers w' = renderers w
    /\ consistent a (this r w').
Proof.
  intros Hw. pose proof Hw as (H1 & H2 & H3 & H4 & H5).
  pose proof (remove_keeps_registry r view w) as Hreg.
  pose proof (keeps_cleanupRootFor a r view w Hw) as Hkeep.
  unfold remove in *. unfold cleanupRootFor in *. rewrite H2, H1 in *.
  destruct (cleanupLoop_spec r a view (length (array r a w)) w)
    as (w' & Hrun & Harr & Hany & Hdes & Hn & Hp & Hr & Hd).
  { lia. }
  { unfold array. rewrite H4. apply attached_roots_NoDup. }
  { intros id Hid. rewrite take_ge in Hid by lia.
    unfold array in Hid. rewrite H4 in Hid.
    now apply attached_roots_alive in Hid. }
  rewrite Hrun in *. simpl in Hreg, Hkeep.
  rewrite take_ge, drop_ge, app_nil_r in Harr by lia.
  rewrite take_ge in Hany, Hdes by lia.
  exists w'. split; [ reflexivity | ].
  unfold roots_of. rewrite Hp, H1.
  split; [ exact Harr | ].
  split; [ exact Hdes | ].
  split; [ | split; assumption ].
  intros id Hfor. destruct (Hany id) as [Heq | (_ & _ & Hf)]; congruence.
Qed.

Lemma remove_destroys_roots_of_view_witness :
  exists w',
    remove 0 100 twoRoots = Ok w'
    /\ roots_of 0 w' = [1]
    /\ rootState 0 0 w' = destroyedRoot
    /\ renderers w' = [0].
Proof.
  assert (Hrun : run 9 0 [Attach 100 [] []; Attach 101 [] []] (newWorld true 10 5%Z)
                 = Some twoRoots) by (vm_compute; reflexivity).
  pose proof (consistent_run 9 0 0 [Attach 100 [] []; Attach 101 [] []]
                (newWorld true 10 5%Z) twoRoots
                (consistent_new true 10 5%Z 0) eq_refl Hrun) as Hc.
  destruct (remove_destroys_roots_of_view 0 0 100 twoRoots Hc)
    as (w' & H1 & H2 & H3 & _ & H5 & _).
  exists w'. split; [ exact H1 | ].
  split; [ rewrite H2; vm_compute; reflexivity | ].
  split; [ apply H3; [ vm_compute; left | reflexivity ] | ].
  rewrite H5. reflexivity.
Defined.

Lemma destroyed_set_rootState r i s w :
  _destroyed (this r (set_rootState r i s w)) = _destroyed (this r w).
Proof. unfold set_rootState. now rewrite this_set_this. Qed.

Lemma this_set_rootState_ne r q i s w :
  q <> r -> this q (set_rootState r i s w) = this q w.
Proof. intros Hq. unfold set_rootState. now apply this_set_this_ne. Qed.

Lemma destroyEach_destroyed r l : forall w,
  ends_in (fun w' => _destroyed (this r w') = _destroyed (this r w)
                     /\ forall q, q <> r -> this q w' = this q w)
    (destroyEach l r w).
Proof.
  induction l as [ | i l IH]; intros w; simpl; [ auto | ].
  unfold RootState_destroy.
  destruct (destroyed (rootState r i w)); simpl; [ auto | ].
  match goal with |- ends_in _ (destroyEach l r ?w1) =>
    assert (H1 : _destroyed (this r w1) = _destroyed (this r w)
                 /\ forall q, q <> r -> this q w1 = this q w);
    [ | specialize (IH w1); destruct (destroyEach l r w1) as [w2 | e w2 | ];
        simpl in *; auto;
        destruct IH as [IHa IHb], H1 as [H1a H1b];
        (split; [ congruence | intros q Hq; rewrite IHb, H1b by assumption; reflexivity ]) ]
  end.
  destruct (result (rootState r i w));
    (split; [ exact (destroyed_set_rootState r i _ w)
            | intros q Hq; exact (this_set_rootState_ne r q i _ w Hq) ]).
Qed.

Lemma destroy_marks (r : nat) (w : World) :
  ends_in (fun w' => _destroyed (this r w') = true
                     /\ forall q, q <> r -> this q w' = this q w)
    (destroy r w).
Proof.
  unfold destroy. destruct (_destroyed (this r w)) eqn:Hd; [ simpl; auto | ].
  unfold _clearAllRoots.
  set (w0 := set_this r (set_destroyed (this r w) true) w).
  assert (H0 : _destroyed (this r w0) = true /\ forall q, q <> r -> this q w0 = this q w).
  { unfold w0. rewrite this_set_this. split; [ reflexivity | ].
    intros q Hq. now apply this_set_this_ne. }
  destruct H0 as [H0a H0b].
  pose proof (destroyEach_destroyed r (array r (_roots (this r w0)) w0) w0) as He.
  destruct (destroyEach _ r w0) as [w1 | e w1 | ]; cbn [bind ends_in] in *;
    [ | | exact I ].
  - destruct He as [He1 He2].
    set (w2 := set_this r _ w1).
    assert (H2 : _destroyed (this r w2) = true
                 /\ forall q, q <> r -> this q w2 = this q w).
    { unfold w2. rewrite this_set_this. split; [ cbn; congruence | ].
      intros q Hq. rewrite this_set_this_ne, He2, H0b by assumption. reflexivity. }
    destruct (negb (length (array r (_roots (this r w0)) w2) =? 0)); [ | exact H2 ].
    unfold deregister. destruct (negb _); cbn [assert bind ends_in]; exact H2.
  - destruct He as [He1 He2].
    split; [ congruence | ].
    intros q Hq. rewrite He2, H0b by assumption. reflexivity.
Qed.

Lemma destroyEach_ends r l : forall w, destroyEach l r w <> OutOfFuel.
Proof.
  induction l as [ | i l IH]; intros w; simpl; [ discriminate | ].
  unfold RootState_destroy. destruct (destroyed (rootState r i w)); simpl;
    [ discriminate | apply IH ].
Qed.

Lemma destroy_ends r w : destroy r w <> OutOfFuel.
Proof.
  unfold destroy. destruct (_destroyed (this r w)); [ discriminate | ].
  unfold _clearAllRoots.
  match goal with
  | |- context [destroyEach ?l r ?w0] =>
      pose proof (destroyEach_ends r l w0) as He;
      destruct (destroyEach l r w0) as [w1 | e w1 | ]
  end; cbn [bind]; [ | discriminate | congruence ].
  destruct (negb (_ =? 0)); [ | discriminate ].
  unfold deregister. destruct (negb _); discriminate.
Qed.

(** X18: [destroy] ends, and it marks the renderer as destroyed before it
    touches a root: whether it returns or throws, the renderer is destroyed
    afterwards and stays inert. A second [destroy] and every [remove] return
    at once and change nothing, the renderer is valid whatever the clock
    says, a revalidation does nothing, and no other renderer was touched. *)
Theorem destroy_leaves_renderer_inert (r : nat) (w : World) :
  exists w',
    (destroy r w = Ok w' \/ exists e, destroy r w = Err e w')
    /\ _destroyed (this r w') = true
    /\ destroy r w' = Ok w'
    /\ (forall view, remove r view w' = Ok w')
    /\ (forall now fuel,
          _isValid r (set_clock w' now) = true
          /\ _revalidate fuel r (set_clock w' now) = Ok (set_clock w' now))
    /\ (forall q, q <> r -> this q w' = this q w).
Proof.
  assert (Hinert : forall w', _destroyed (this r w') = true ->
            destroy r w' = Ok w'
            /\ (forall view, remove r view w' = Ok w')
            /\ (forall now fuel,
                  _isValid r (set_clock w' now) = true
                  /\ _revalidate fuel r (set_clock w' now) = Ok (set_clock w' now))).
  { intros w' Hd. unfold destroy, remove, cleanupRootFor, _revalidate, _isValid.
    change (this r (set_clock w' ?c)) with (this r w').
    rewrite Hd. simpl. auto. }
  pose proof (destroy_marks r w) as H.
  pose proof (destroy_ends r w) as Hends.
  destruct (destroy r w) as [w' | e w' | ]; cbn [ends_in] in *; [ | | congruence ];
    destruct H as [Hd Hq], (Hinert w' Hd) as (H1 & H2 & H3);
    exists w'; (split; [ first [ left; reflexivity | right; eexists; reflexivity ] | ]);
    auto.
Qed.

(** X19: a revalidation of a renderer that is not valid, outside of a
    transaction, with roots that are alive and whose rerenders do nothing to
    the renderer, rerenders every root exactly once, in the order of
    [_roots], in a single pass; the roots stay as they are and the renderer
    is valid afterwards. *)
Theorem revalidate_rerenders_each_root_once (fuel r : nat) (w : World) :
  let l := roots_of r w in
  _inRenderTransaction (this r w) = false ->
  _removedRoots (this r w) = [] ->
  (forall id, id ∈ l -> quiet (rootState r id w)) ->
  _isValid r w = false ->
  length l + 3 <= fuel ->
  exists w',
    _revalidate fuel r w = Ok w'
    /\ roots_of r w' = l
    /\ log w' = log w ++ map (EvRender r) l
    /\ (forall id, rootState r id w' = rootState r id w)
    /\ renderers w' = renderers w
    /\ _isValid r w' = true.
Proof.
  intros l Hguard Hremoved Hquiet Hinvalid Hfuel.
  assert (Hne : l <> []).
  { intros Hnil. unfold _isValid in Hinvalid. fold (roots_of r w) in Hinvalid.
    fold l in Hinvalid. rewrite Hnil in Hinvalid. simpl in Hinvalid.
    now rewrite orb_true_r in Hinvalid. }
  assert (Hk : exists k, fuel = S (S (length l + S k))).
  { exists (fuel - length l - 3). lia. }
  destruct Hk as [k ->].
  unfold _revalidate. rewrite Hinvalid, renderRootsTransaction_S.
  set (a := _roots (this r w)).
  set (w3 := set_this r (set_inRenderTransaction (this r w) true) w).
  assert (H3 : array r a w3 = l /\ forall id, rootState r id w3 = rootState r id w).
  { unfold w3. norm. split; reflexivity. }
  destruct H3 as [Harr3 Hs3].
  set (w4 := emits (map (EvRender r) l) w3).
  assert (Hpass : forRoots (_renderRootsTransaction (S (length l + S k)))
                    (length l + S k) r a (length (array r a w3)) 0 w3 = Ok w4).
  { rewrite Harr3.
    rewrite (forRoots_quiet _ r a (length l) l [] [] w3 (S k));
      [ | now rewrite app_nil_r | simpl; lia
        | intros id Hid; rewrite Hs3; now apply Hquiet ].
    fold w4. cbn [forRoots length Nat.add].
    assert (Harr4 : array r a w4 = l) by exact Harr3.
    rewrite Harr4. now rewrite lookup_ge_None_2 by lia. }
  rewrite (transaction_completes _ _ r w (committed r w4)); try assumption.
  - eexists. split; [ reflexivity | ].
    unfold finish, committed, w4, w3, roots_of, _isValid. norm.
    repeat split; auto.
    unfold validateTag, valueForTag. simpl. rewrite Z.leb_refl. apply orb_true_r.
  - fold a. fold w3. apply doWhile_last_pass; [ exact Hpass | ].
    unfold w4. change (array r a (emits _ w3)) with (array r a w3). lia.
  - unfold committed, w4, w3. norm. exact Hremoved.
  - unfold committed, w4, w3. norm. reflexivity.
  - fold a. unfold committed, w4, w3. norm. exact Hne.
Qed.

Lemma revalidate_rerenders_each_root_once_witness :
  exists w',
    _revalidate 9 0 twoRootsDirty = Ok w'
    /\ roots_of 0 w' = [0; 1]
    /\ log w' = log twoRootsDirty ++ [EvRender 0 0; EvRender 0 1].
Proof.
  destruct (revalidate_rerenders_each_root_once 9 0 twoRootsDirty)
    as (w' & H1 & H2 & H3 & _); try reflexivity.
  - intros id Hid.
    repeat (apply elem_of_cons in Hid as [-> | Hid]; [ split; reflexivity | ]).
    now apply elem_of_nil in Hid.
  - vm_compute. lia.
  - exists w'. repeat split; assumption.
Defined.



(** X21: [remove] splices a root out of [_roots] at once, also while the
    pass of a transaction walks that array by index. When the rerender of
    the root [a] removes the view of [a], the root [b] that followed it
    moves to the index of [a], the pass goes on behind it, and [b] is not
    rendered in this transaction; the transaction returns and the renderer
    counts as valid. *)
Theorem root_removed_in_its_render_hides_next_root
    (fuel r a b va vb : nat) (resb : bool) (fb : render_fn) (w : World) :
  roots_of r w = [a; b] ->
  a <> b ->
  va <> vb ->
  rootState r a w = mkRoot (Some va) true false (Rerender [Remove va]) ->
  rootState r b w = mkRoot (Some vb) resb false fb ->
  _destroyed (this r w) = false ->
  _inRenderTransaction (this r w) = false ->
  _removedRoots (this r w) = [] ->
  4 <= fuel ->
  exists w',
    _renderRootsTransaction fuel r w = Ok w'
    /\ roots_of r w' = [b]
    /\ rootState r a w' = destroyedRoot
    /\ rootState r b w' = rootState r b w
    /\ log w' = log w ++ [EvRender r a; EvDestroyResult r a]
    /\ _isValid r w' = true.
Proof.
  intros Hroots Hab Hv Ha Hb Hd Hguard Hremoved Hfuel.
  assert (Hk : exists k, fuel = S (S (S (S k)))) by (exists (fuel - 4); lia).
  destruct Hk as [k ->].
  rewrite renderRootsTransaction_S.
  set (rec := _renderRootsTransaction (S (S (S k)))).
  set (p := _roots (this r w)).
  set (w3 := set_this r (set_inRenderTransaction (this r w) true) w).
  set (w4 := emit (EvRender r a) w3).
  set (w5 := emit (EvDestroyResult r a) (set_rootState r a destroyedRoot w4)).
  set (w6 := set_array r p [b] w5).
  assert (H4 : array r p w4 = [a; b]
               /\ rootState r a w4 = mkRoot (Some va) true false (Rerender [Remove va])
               /\ rootState r b w4 = mkRoot (Some vb) resb false fb
               /\ _destroyed (this r w4) = false
               /\ _roots (this r w4) = p).
  { unfold w4, w3, p. unfold roots_of in Hroots. norm. auto. }
  destruct H4 as (Harr4 & Ha4 & Hb4 & Hd4 & Hp4).
  assert (Hclean : cleanupRootFor r va w4 = Ok w6).
  { unfold cleanupRootFor. rewrite Hd4, Hp4, Harr4.
    cbn [length cleanupLoop]. rewrite Harr4. cbn [lookup list_lookup].
    rewrite Hb4. unfold isFor at 1. cbn [root].
    replace (vb =? va) with false by (symmetry; apply Nat.eqb_neq; congruence).
    rewrite Ha4. unfold isFor at 1. cbn [root]. rewrite Nat.eqb_refl.
    unfold RootState_destroy. rewrite Ha4. cbn [destroyed result bind].
    fold destroyedRoot. fold w5.
    assert (Harr5 : array r p w5 = [a; b]).
    { unfold w5. rewrite <- Harr4. unfold w4, w3. now norm. }
    rewrite Harr5. reflexivity. }
  assert (Hrender : RootState_render rec r a w3 = Ok w6).
  { unfold RootState_render.
    replace (render (rootState r a w3)) with (Rerender [Remove va])
      by (change (rootState r a w3) with (rootState r a w4); now rewrite Ha4).
    unfold errorLoopTransaction. fold w4. cbn [exec perform].
    rewrite Hclean. reflexivity. }
  assert (H6 : array r p w6 = [b]
               /\ rootState r a w6 = destroyedRoot
               /\ rootState r b w6 = rootState r b w
               /\ log w6 = log w ++ [EvRender r a; EvDestroyResult r a]
               /\ _removedRoots (this r w6) = []
               /\ _roots (this r w6) = p
               /\ clock w6 = clock w).
  { unfold w6, w5, w4, w3, p. norm.
    repeat split; auto.
    - unfold upd. destruct (Nat.eqb_spec b a) as [-> | _]; [ congruence | reflexivity ].
    - now rewrite <- app_assoc. }
  destruct H6 as (Harr6 & Ha6 & Hb6 & Hl6 & Hr6 & Hp6 & Hc6).
  assert (Hpass : forRoots rec (S (S k)) r p (length (array r p w3)) 0 w3 = Ok w6).
  { change (array r p w3) with (array r p w4). rewrite Harr4.
    cbn [forRoots length].
    change (array r p w3) with (array r p w4). rewrite Harr4.
    cbn [lookup list_lookup].
    change (rootState r a w3) with (rootState r a w4). rewrite Ha4.
    cbn [destroyed Nat.leb]. rewrite Hrender. cbn [bind].
    rewrite Harr6. reflexivity. }
  rewrite (transaction_completes _ _ r w (committed r w6)); try assumption.
  - eexists. split; [ reflexivity | ]. fold p.
    assert (Hfin : roots_of r (finish r p (committed r w6)) = [b]
                   /\ rootState r a (finish r p (committed r w6)) = destroyedRoot
                   /\ rootState r b (finish r p (committed r w6)) = rootState r b w
                   /\ log (finish r p (committed r w6))
                      = log w ++ [EvRender r a; EvDestroyResult r a]
                   /\ _lastRevision (this r (finish r p (committed r w6)))
                      = clock (finish r p (committed r w6))).
    { rewrite <- Harr6, <- Ha6, <- Hb6, <- Hl6.
      unfold finish, committed, roots_of. rewrite <- Hp6 at 1. normg.
      repeat split; auto. }
    destruct Hfin as (F1 & F2 & F3 & F4 & F5).
    repeat split; auto.
    unfold _isValid, validateTag. rewrite F5, Z.leb_refl. apply orb_true_r.
  - fold p. fold w3. apply doWhile_last_pass; [ exact Hpass | ].
    change (array r p w3) with (array r p w4). rewrite Harr4, Harr6. simpl. lia.
  - unfold committed. rewrite this_set_this. exact Hr6.
  - unfold committed. rewrite this_set_this. exact Hp6.
  - fold p. unfold committed.
    replace (array r p (set_this r _ w6)) with (array r p w6)
      by (unfold array; now rewrite this_set_this).
    rewrite Harr6. discriminate.
Qed.

Lemma root_removed_in_its_render_hides_next_root_witness :
  exists w',
    _renderRootsTransaction 9 0 selfRemoving = Ok w'
    /\ roots_of 0 w' = [1]
    /\ rootState 0 1 w' = mkRoot (Some 101) false false (InitialRender [] [])
    /\ renders 0 1 (log w') = 0.
Proof.
  destruct (root_removed_in_its_render_hides_next_root 9 0 0 1 100 101 false
              (InitialRender [] []) selfRemoving) as (w' & H1 & H2 & _ & H4 & H5 & _);
    try reflexivity; try discriminate.
  - lia.
  - exists w'. split; [ exact H1 | ]. split; [ exact H2 | ].
    split; [ exact H4 | ]. rewrite H5. reflexivity.
Defined.
(** ** Owners *)

Section OwnerProperties.
Import Owners.

Variable G : Type.
Variable glimmerGetOwner : G -> nat -> option nat.
Variable glimmerSetOwner : G -> nat -> nat -> G.

(** What is asked from [@glimmer/owner]: the owner set for an object is the
    owner read for it. *)
Hypothesis get_set : forall g object owner,
  glimmerGetOwner (glimmerSetOwner g object owner) object = Some owner.

Lemma first_own_None (own : gmap nat nat) (objects : list nat) :
  first_own own objects = None <-> forall o, o ∈ objects -> own !! o = None.
Proof.
  induction objects as [ | o rest IH]; simpl.
  - split; [ intros _ o Ho; now apply elem_of_nil in Ho | reflexivity ].
  - destruct (own !! o) as [v | ] eqn:Ho.
    + split; [ discriminate | ].
      intros H. specialize (H o ltac:(left)). congruence.
    + rewrite IH. split.
      * intros H o' Ho'. apply elem_of_cons in Ho' as [-> | Ho']; auto.
      * intros H o' Ho'. apply H. now right.
Qed.

(** X22: for any [@glimmer/owner] in which the owner set for an object is
    the owner read for it: after [setOwner], [getOwner] returns the owner
    that was set, reports no deprecation and changes nothing. For an object
    for which glimmer has no owner, [getOwner] reads [LEGACY_OWNER] as a
    property, through the prototypes: it returns the value of the first of
    the object and its prototypes that has the property as its own, with
    the deprecation [owner.legacy-owner-injection], so an object also gets
    the owner that [setOwner] gave to a prototype of it; when none of them
    has the property it returns [undefined] and reports nothing. *)
Theorem getOwner_after_setOwner (object owner : nat) (h : Heap G) :
  getOwner glimmerGetOwner object (setOwner glimmerSetOwner object owner h)
  = (Some owner, setOwner glimmerSetOwner object owner h)
  /\ (glimmerGetOwner (glimmer h) object = None ->
      forall before holder rest legacy,
        object :: prototypes h object = before ++ holder :: rest ->
        (forall o, o ∈ before -> LEGACY_OWNER h !! o = None) ->
        LEGACY_OWNER h !! holder = Some legacy ->
        getOwner glimmerGetOwner object h
        = (Some legacy,
           mkHeap (glimmer h) (prototypes h) (LEGACY_OWNER h)
             (deprecations h ++ ["owner.legacy-owner-injection"%string])))
  /\ (glimmerGetOwner (glimmer h) object = None ->
      (forall o, o ∈ object :: prototypes h object -> LEGACY_OWNER h !! o = None) ->
      getOwner glimmerGetOwner object h = (None, h))
  /\ (forall child,
        glimmerGetOwner (glimmerSetOwner (glimmer h) object owner) child = None ->
        LEGACY_OWNER h !! child = None ->
        child <> object ->
        (exists rest, prototypes h child = object :: rest) ->
        fst (getOwner glimmerGetOwner child (setOwner glimmerSetOwner object owner h))
        = Some owner).
Proof.
  split; [ | split; [ | split ] ].
  - unfold getOwner, setOwner. cbn [glimmer]. now rewrite get_set.
  - intros Hnone before holder rest legacy Hchain Hbefore Hholder.
    unfold getOwner. rewrite Hnone. cbv zeta. rewrite Hchain.
    assert (Hfirst : first_own (LEGACY_OWNER h) (before ++ holder :: rest) = Some legacy).
    { clear Hchain. induction before as [ | o before IH]; simpl.
      - now rewrite Hholder.
      - rewrite (Hbefore o) by left. apply IH.
        intros o' Ho'. apply Hbefore. now right. }
    rewrite Hfirst. reflexivity.
  - intros Hnone Hall. unfold getOwner. rewrite Hnone. cbv zeta.
    rewrite (proj2 (first_own_None _ _) Hall). now destruct h.
  - intros child Hnone Hown Hne (rest & Hchain).
    unfold getOwner, setOwner. cbn [glimmer prototypes LEGACY_OWNER].
    rewrite Hnone, Hchain. cbn [first_own fst].
    rewrite lookup_insert_ne by congruence. rewrite Hown.
    now rewrite lookup_insert_eq.
Qed.

End OwnerProperties.

Lemma getOwner_after_setOwner_witness :
  let after := Owners.setOwner OwnerExamples.set 4 1 OwnerExamples.copied in
  Owners.getOwner OwnerExamples.get 4 after = (Some 1, after)
  /\ Owners.deprecations after = []
  /\ fst (Owners.getOwner OwnerExamples.get 6 OwnerExamples.copied) = Some 1
  /\ Owners.deprecations (snd (Owners.getOwner OwnerExamples.get 6 OwnerExamples.copied))
     = ["owner.legacy-owner-injection"%string].
Proof.
  cbv zeta.
  assert (Hget : forall g object owner,
            OwnerExamples.get (OwnerExamples.set g object owner) object = Some owner)
    by (intros; apply lookup_insert_eq).
  destruct (getOwner_after_setOwner _ OwnerExamples.get OwnerExamples.set Hget
              4 1 OwnerExamples.copied) as (H1 & _).
  destruct (getOwner_after_setOwner _ OwnerExamples.get OwnerExamples.set Hget
              6 1 OwnerExamples.copied) as (_ & H2 & _).
  split; [ exact H1 | ]. split; [ reflexivity | ].
  rewrite (H2 (lookup_empty _) [6] 5 [] 1).
  - split; reflexivity.
  - reflexivity.
  - intros o Ho. apply list_elem_of_singleton in Ho as ->. reflexivity.
  - apply lookup_singleton_eq.
Defined.
